(** * Language-service utilities (packages/language-service/ivy/utils.ts)

    A shallow embedding of the helpers of [utils.ts]: span resolution
    ([getTextSpanOfNode], [toTextSpan]), template location
    ([getFirstComponentForTemplateFile], [getInlineTemplateInfoAtPosition]),
    directive attribution by elimination ([getDirectiveMatchesForElementTag],
    [getDirectiveMatchesForAttribute]) and the display-part filter
    ([filterAliasImports]).

    Offsets are JavaScript numbers holding integers and are modelled as [Z];
    strings are sequences of code units ([string]); arrays are lists; a
    JavaScript [Set] is the list of its elements in insertion order. *)

From Stdlib Require Import ZArith Ascii String.
From stdpp Require Import base decidable numbers list strings sorting.

Local Open Scope string_scope.
Local Open Scope Z_scope.

(** ** Definitions *)

(** *** Source spans and AST nodes, as [utils.ts] sees them *)
Module Span.

(** [AbsoluteSourceSpan]: raw offsets. *)
Record AbsoluteSourceSpan := mkAbsoluteSourceSpan {
  abs_start : Z;
  abs_end : Z
}.

Record ParseSourceFile := mkParseSourceFile {
  content : string;
  url : string
}.

Record ParseLocation := mkParseLocation {
  file : ParseSourceFile;
  offset : Z;
  line : Z;
  col : Z
}.

(** [ParseSourceSpan]: a span between two parsed locations. *)
Record ParseSourceSpan := mkParseSourceSpan {
  span_start : ParseLocation;
  span_end : ParseLocation
}.

(** The union [AbsoluteSourceSpan|ParseSourceSpan], told apart by
    [instanceof AbsoluteSourceSpan]. *)
Inductive SourceSpan :=
| Absolute (span : AbsoluteSourceSpan)
| Parsed (span : ParseSourceSpan).

(** [ts.TextSpan]. *)
Record TextSpan := mkTextSpan {
  start : Z;
  length : Z
}.

(** A template node ([t.Node]): its [sourceSpan] is a [ParseSourceSpan];
    [keySpan] is [Some] exactly when the object has an own property of that
    name (attributes, events, variables, references), and [valueSpan] is
    optional on those. *)
Record TemplateNode := mkTemplateNode {
  t_sourceSpan : ParseSourceSpan;
  t_keySpan : option ParseSourceSpan;
  t_valueSpan : option ParseSourceSpan
}.

(** An expression node ([e.AST]): its [sourceSpan] is an
    [AbsoluteSourceSpan]. The classes deriving from [ASTWithName] carry a
    [nameSpan]; every other class is [OtherAST]. *)
Inductive AST :=
| PropertyRead (sourceSpan nameSpan : AbsoluteSourceSpan)
| PropertyWrite (sourceSpan nameSpan : AbsoluteSourceSpan)
| MethodCall (sourceSpan nameSpan : AbsoluteSourceSpan)
| BindingPipe (sourceSpan nameSpan : AbsoluteSourceSpan)
| SafePropertyRead (sourceSpan nameSpan : AbsoluteSourceSpan)
| SafeMethodCall (sourceSpan nameSpan : AbsoluteSourceSpan)
| OtherAST (sourceSpan : AbsoluteSourceSpan).

(** [t.Node|e.AST]. *)
Inductive Node :=
| Template (node : TemplateNode)
| Expression (node : AST).

Definition e_sourceSpan (node : AST) : AbsoluteSourceSpan :=
  match node with
  | PropertyRead s _ | PropertyWrite s _ | MethodCall s _ | BindingPipe s _
  | SafePropertyRead s _ | SafeMethodCall s _ | OtherAST s => s
  end.

(** [node.sourceSpan]. *)
Definition sourceSpan (node : Node) : SourceSpan :=
  match node with
  | Template n => Parsed (t_sourceSpan n)
  | Expression n => Absolute (e_sourceSpan n)
  end.

(** [node.hasOwnProperty('keySpan')], with the property's value. *)
Definition ownKeySpan (node : Node) : option ParseSourceSpan :=
  match node with
  | Template n => t_keySpan n
  | Expression _ => None
  end.

Definition toTextSpan (span : SourceSpan) : TextSpan :=
  let '(start, end_) :=
    match span with
    | Absolute span => (abs_start span, abs_end span)
    | Parsed span => (offset (span_start span), offset (span_end span))
    end in
  {| start := start; length := end_ - start |}.

(** [node.sourceSpan instanceof ParseSourceSpan]. *)
Definition isTemplateNode (node : Node) : bool :=
  match sourceSpan node with
  | Parsed _ => true
  | Absolute _ => false
  end.

Definition isTemplateNodeWithKeyAndValue (node : Node) : bool :=
  isTemplateNode node && bool_decide (is_Some (ownKeySpan node)).

(** [node instanceof e.AST]. *)
Definition isExpressionNode (node : Node) : bool :=
  match node with
  | Expression _ => true
  | Template _ => false
  end.

(** The [instanceof] test of the second branch of [getTextSpanOfNode]; it
    returns the [nameSpan] read in that branch. *)
Definition instanceofNamed (node : Node) : option AbsoluteSourceSpan :=
  match node with
  | Expression (PropertyWrite _ n) => Some n
  | Expression (MethodCall _ n) => Some n
  | Expression (BindingPipe _ n) => Some n
  | Expression (PropertyRead _ n) => Some n
  | _ => None
  end.

Definition getTextSpanOfNode (node : Node) : TextSpan :=
  if isTemplateNodeWithKeyAndValue node then
    match ownKeySpan node with
    | Some keySpan => toTextSpan (Parsed keySpan)
    | None => toTextSpan (sourceSpan node)
    end
  else
    match instanceofNamed node with
    | Some nameSpan => toTextSpan (Absolute nameSpan)
    | None => toTextSpan (sourceSpan node)
    end.

(** The two endpoints of a span, as the specification names them: the raw
    offsets of an absolute span, the [offset] fields of a parsed one. *)
Definition startOffset (span : SourceSpan) : Z :=
  match span with
  | Absolute span => abs_start span
  | Parsed span => offset (span_start span)
  end.

Definition endOffset (span : SourceSpan) : Z :=
  match span with
  | Absolute span => abs_end span
  | Parsed span => offset (span_end span)
  end.

End Span.

(** *** TypeScript declarations and the compiler services of the locator *)
Module Locator.

Inductive SyntaxKind :=
| ClassDeclaration
| FunctionDeclaration
| InterfaceDeclaration
| VariableStatement
| ExpressionStatement.

(** A [ts.Node]: its kind, its range [pos, end) with leading trivia, the
    name of the source file it belongs to, and its child nodes. *)
#[warnings="-register-all"]
Inductive TsNode :=
| mkTsNode (kind : SyntaxKind) (pos end_ : Z) (sourceFileName : string)
    (children : list TsNode).

Definition kind (n : TsNode) : SyntaxKind := let 'mkTsNode k _ _ _ _ := n in k.
Definition pos (n : TsNode) : Z := let 'mkTsNode _ p _ _ _ := n in p.
Definition end_ (n : TsNode) : Z := let 'mkTsNode _ _ e _ _ := n in e.
Definition children (n : TsNode) : list TsNode := let 'mkTsNode _ _ _ _ c := n in c.

(** [n.getSourceFile().fileName]. *)
Definition sourceFileName (n : TsNode) : string :=
  let 'mkTsNode _ _ _ f _ := n in f.

(** [n.getFullStart()], which reads [n.pos]. *)
Definition getFullStart (n : TsNode) : Z := pos n.

(** [ts.isClassDeclaration]. *)
Definition isClassDeclaration (n : TsNode) : bool :=
  match kind n with
  | ClassDeclaration => true
  | _ => false
  end.

Record SourceFile := mkSourceFile {
  fileName : string;
  statements : list TsNode
}.

(** The part of [NgCompiler] the locator calls. [getTemplate] is
    [getTemplateTypeChecker().getTemplate] ([None] for [null]),
    [getComponentsWithTemplateFile] lists the returned set in iteration
    order, [getSourceFile] is [getNextProgram().getSourceFile] ([None] for
    [undefined]). *)
Record NgCompiler := mkNgCompiler {
  getTemplate : TsNode -> option (list Span.TemplateNode);
  getComponentsWithTemplateFile : string -> list TsNode;
  getSourceFile : string -> option SourceFile
}.

Record TemplateInfo := mkTemplateInfo {
  template : list Span.TemplateNode;
  component : TsNode
}.

(** [s.endsWith(suffix)]. *)
Definition endsWith (s suffix : string) : bool :=
  let n := String.length s in
  let m := String.length suffix in
  (m <=? n)%nat && String.eqb (substring (n - m) m s) suffix.

Definition tsDeclarationSortComparator (a b : TsNode) : Z :=
  let aFile := sourceFileName a in
  let bFile := sourceFileName b in
  if String.ltb aFile bFile then -1
  else if String.ltb bFile aFile then 1
  else getFullStart b - getFullStart a.

(** The order a comparator function induces: [a] is not placed after [b]
    when [cmp a b <= 0]. *)
Definition comparator_le {A} (cmp : A -> A -> Z) : relation A :=
  fun a b => cmp a b <= 0.

(** [Array.prototype.sort(cmp)], a stable sort: each element is inserted,
    from the last to the first, in front of the first element it is not
    placed after. *)
Fixpoint Array_insert {A} (cmp : A -> A -> Z) (x : A) (sorted : list A) : list A :=
  match sorted with
  | [] => [x]
  | y :: rest => if cmp x y <=? 0 then x :: y :: rest else y :: Array_insert cmp x rest
  end.

Definition Array_sort {A} (cmp : A -> A -> Z) (a : list A) : list A :=
  foldr (Array_insert cmp) [] a.

Definition sortedComponents (compiler : NgCompiler) (fileName : string) : list TsNode :=
  Array_sort tsDeclarationSortComparator (getComponentsWithTemplateFile compiler fileName).

(** The [for] loop of [getFirstComponentForTemplateFile]. *)
Fixpoint firstComponentLoop (compiler : NgCompiler) (components : list TsNode) :
    option TemplateInfo :=
  match components with
  | [] => None
  | component :: rest =>
      if negb (isClassDeclaration component) then firstComponentLoop compiler rest
      else
        match getTemplate compiler component with
        | None => firstComponentLoop compiler rest
        | Some template => Some {| template := template; component := component |}
        end
  end.

Definition getFirstComponentForTemplateFile (fileName : string) (compiler : NgCompiler) :
    option TemplateInfo :=
  firstComponentLoop compiler (sortedComponents compiler fileName).

(** The [for] loop of [getInlineTemplateInfoAtPosition]. *)
Fixpoint inlineLoop (position : Z) (compiler : NgCompiler) (statements : list TsNode) :
    option TemplateInfo :=
  match statements with
  | [] => None
  | statement :: rest =>
      if negb (isClassDeclaration statement)
         || (position <? pos statement) || (position >? end_ statement)
      then inlineLoop position compiler rest
      else
        match getTemplate compiler statement with
        | None => None
        | Some template => Some {| template := template; component := statement |}
        end
  end.

Definition getInlineTemplateInfoAtPosition (fileName : string) (position : Z)
    (compiler : NgCompiler) : option TemplateInfo :=
  match getSourceFile compiler fileName with
  | None => None
  | Some sourceFile => inlineLoop position compiler (statements sourceFile)
  end.

Definition getTemplateInfoAtPosition (fileName : string) (position : Z)
    (compiler : NgCompiler) : option TemplateInfo :=
  if endsWith fileName ".ts" then getInlineTemplateInfoAtPosition fileName position compiler
  else getFirstComponentForTemplateFile fileName compiler.

(** The order of the candidates as the specification words it: the
    lexicographically smaller file path first; in one file, the larger raw
    start offset first. *)
Definition sortsBefore (a b : TsNode) : Prop :=
  String.compare (sourceFileName a) (sourceFileName b) = Lt
  ∨ (sourceFileName a = sourceFileName b ∧ getFullStart b ≤ getFullStart a).

(** Two declarations the order does not tell apart. *)
Definition sameKey (a b : TsNode) : Prop :=
  sourceFileName a = sourceFileName b ∧ getFullStart a = getFullStart b.

#[export] Instance sameKey_dec : RelDecision sameKey.
Proof. intros a b. unfold sameKey. apply _. Defined.

(** A candidate the external mode can return: a class declaration whose
    template is not null. *)
Definition viable (compiler : NgCompiler) (c : TsNode) : Prop :=
  isClassDeclaration c = true ∧ getTemplate compiler c ≠ None.

(** The declaration is a class declaration whose range holds the offset. *)
Definition classAt (position : Z) (statement : TsNode) : Prop :=
  isClassDeclaration statement = true ∧ pos statement ≤ position ≤ end_ statement.

End Locator.

(** *** Directive attribution by elimination *)
Module Attribution.

Inductive AttributeClass := TextAttribute | BoundAttribute.

(** [t.TextAttribute|t.BoundAttribute], with the fields read here. *)
Record Attribute := mkAttribute {
  attr_class : AttributeClass;
  attr_name : string;
  valueSpan : option Span.ParseSourceSpan
}.

(** [t.Template|t.Element]. *)
Inductive HostNode :=
| Element (name : string) (attributes inputs : list Attribute)
| Template (tagName : string) (attributes inputs templateAttrs : list Attribute).

(** [DirectiveSymbol]: [ref] stands for the identity of the object, which
    is what a JavaScript [Set] compares. *)
Record DirectiveSymbol := mkDirectiveSymbol {
  ref : nat;
  selector : option string
}.

#[export] Instance DirectiveSymbol_eq_dec : EqDecision DirectiveSymbol.
Proof. solve_decision. Defined.

(** The selector capability of [@angular/compiler], which this file only
    calls: [CssSelector.parse], and a [SelectorMatcher] to which the
    selectors of its first argument were given by [addSelectables] and whose
    [match(selector, null)] is asked for its second. *)
Class SelectorApi := {
  CssSelector : Type;
  CssSelector_parse : string -> list CssSelector;
  SelectorMatcher_match : list CssSelector -> CssSelector -> bool
}.

(** [s.substring(a, b)]: both indices are clamped to the string and
    swapped when out of order. *)
Definition String_substring (s : string) (a b : Z) : string :=
  let len := Z.of_nat (String.length s) in
  let a := Z.max 0 (Z.min a len) in
  let b := Z.max 0 (Z.min b len) in
  let lo := Z.min a b in
  let hi := Z.max a b in
  substring (Z.to_nat lo) (Z.to_nat (hi - lo)) s.

(** Modelled from the spec: [ParseSourceSpan.toString] belongs to the
    compiler package; it gives the text of the span ("the attribute's
    bound/static value text"), the content of the file of the start location
    between the two offsets. *)
Definition ParseSourceSpan_toString (span : Span.ParseSourceSpan) : string :=
  String_substring (Span.content (Span.file (Span.span_start span)))
    (Span.offset (Span.span_start span)) (Span.offset (Span.span_end span)).

(** [a.join(sep)]. *)
Fixpoint Array_join (sep : string) (a : list string) : string :=
  match a with
  | [] => ""
  | [x] => x
  | x :: rest => x ++ sep ++ Array_join sep rest
  end.

(** A JavaScript [Set]: its elements in insertion order. *)
Section JsSet.
Context {A : Type} `{EqDecision A}.

Definition Set_has (s : list A) (x : A) : bool := bool_decide (x ∈ s).

Definition Set_add (s : list A) (x : A) : list A :=
  if Set_has s x then s else s ++ [x].

(** [new Set(iterable)]. *)
Definition Set_from (l : list A) : list A := foldl Set_add [] l.

Definition difference (left right : list A) : list A :=
  foldl (fun result dir => if negb (Set_has right dir) then Set_add result dir else result)
    [] left.

End JsSet.

Definition toAttributeString (attribute : Attribute) : string :=
  "[" ++ attr_name attribute ++ "="
      ++ match valueSpan attribute with
         | Some span => ParseSourceSpan_toString span
         | None => ""
         end
      ++ "]".

Definition getNodeName (node : HostNode) : string :=
  match node with
  | Template tagName _ _ _ => tagName
  | Element name _ _ => name
  end.

Definition getAttributes (node : HostNode) : list Attribute :=
  match node with
  | Template _ attributes inputs templateAttrs => (attributes ++ inputs) ++ templateAttrs
  | Element _ attributes inputs => attributes ++ inputs
  end.

Section Engine.
Context `{api : SelectorApi}.

Definition getDirectiveMatchesForSelector (directives : list DirectiveSymbol)
    (selector_text : string) : list DirectiveSymbol :=
  let selectors := CssSelector_parse selector_text in
  if (List.length selectors =? 0)%nat then []
  else
    Set_from
      (List.filter
         (fun dir =>
            match selector dir with
            | None => false
            | Some dir_selector =>
                existsb (fun sel => SelectorMatcher_match (CssSelector_parse dir_selector) sel)
                  selectors
            end)
         directives).

Definition getDirectiveMatchesForElementTag (element : HostNode)
    (directives : list DirectiveSymbol) : list DirectiveSymbol :=
  let attributes := getAttributes element in
  let allAttrs := map toAttributeString attributes in
  let allDirectiveMatches :=
    getDirectiveMatchesForSelector directives (getNodeName element ++ Array_join "" allAttrs) in
  let matchesWithoutElement :=
    getDirectiveMatchesForSelector directives (Array_join "" allAttrs) in
  difference allDirectiveMatches matchesWithoutElement.

Definition getDirectiveMatchesForAttribute (name : string) (hostNode : HostNode)
    (directives : list DirectiveSymbol) : list DirectiveSymbol :=
  let attributes := getAttributes hostNode in
  let allAttrs := map toAttributeString attributes in
  let allDirectiveMatches :=
    getDirectiveMatchesForSelector directives (getNodeName hostNode ++ Array_join "" allAttrs) in
  let attrsExcludingName :=
    map toAttributeString
      (List.filter (fun a => negb (String.eqb (attr_name a) name)) attributes) in
  let matchesWithoutAttr :=
    getDirectiveMatchesForSelector directives (Array_join "" attrsExcludingName) in
  difference allDirectiveMatches matchesWithoutAttr.

End Engine.

(** The attribution as the specification words it. *)

(** The text in [[name=value]]: the value text, or the empty string. *)
Definition valueText (a : Attribute) : string :=
  from_option ParseSourceSpan_toString "" (valueSpan a).

(** Every attribute renders as [[name=value]], one after the other. *)
Definition serialize (attrs : list Attribute) : string :=
  foldr (fun a rest => "[" ++ attr_name a ++ "=" ++ valueText a ++ "]" ++ rest) "" attrs.

Definition staticAttributes (host : HostNode) : list Attribute :=
  match host with
  | Element _ attributes _ | Template _ attributes _ _ => attributes
  end.

Definition boundAttributes (host : HostNode) : list Attribute :=
  match host with
  | Element _ _ inputs | Template _ _ inputs _ => inputs
  end.

Definition templateAttributes (host : HostNode) : list Attribute :=
  match host with
  | Element _ _ _ => []
  | Template _ _ _ templateAttrs => templateAttrs
  end.

(** Static attributes, then bound ones, then, on a Template host, the
    template attributes. *)
Definition allAttributes (host : HostNode) : list Attribute :=
  staticAttributes host ++ boundAttributes host ++ templateAttributes host.

(** All attributes minus every attribute called [name]. *)
Definition attributesWithout (name : string) (host : HostNode) : list Attribute :=
  List.filter (fun a => bool_decide (attr_name a ≠ name)) (allAttributes host).

(** The tag name of the host: the [name] of an Element, the [tagName] of a
    Template. *)
Definition tagName (host : HostNode) : string :=
  match host with
  | Element name _ _ => name
  | Template tag _ _ _ => tag
  end.

(** The directive [d] matches the compound selector [text]: its selector is
    not null, and some selector parsed from [text] is matched by the matcher
    holding the selectors parsed from the directive's. *)
Definition matches `{api : SelectorApi} (text : string) (d : DirectiveSymbol) : Prop :=
  ∃ dir_selector, selector d = Some dir_selector ∧
    ∃ sel, sel ∈ CssSelector_parse text ∧
      SelectorMatcher_match (CssSelector_parse dir_selector) sel = true.

(** [d] is one of the directives of [directives] matching [text]. *)
Definition matching `{api : SelectorApi} (directives : list DirectiveSymbol) (text : string)
    (d : DirectiveSymbol) : Prop :=
  d ∈ directives ∧ matches text d.

End Attribution.

(** *** The display-part filter *)
Module DisplayText.

(** [ts.SymbolDisplayPart]. *)
Record SymbolDisplayPart := mkSymbolDisplayPart {
  kind : string;
  text : string
}.

(** [\d]. *)
Definition isDigit (c : ascii) : bool :=
  (48 <=? nat_of_ascii c)%nat && (nat_of_ascii c <=? 57)%nat.

(** [/i\d+/] tried at the start of [s]: an [i], then one digit or more. *)
Definition tcbAliasImportRegex_matchAt (s : string) : bool :=
  match s with
  | String c rest =>
      Ascii.eqb c "i" && match rest with
                         | String d _ => isDigit d
                         | EmptyString => false
                         end
  | EmptyString => false
  end.

(** [tcbAliasImportRegex.test(s)]: the pattern is tried at every index. *)
Fixpoint tcbAliasImportRegex_test (s : string) : bool :=
  tcbAliasImportRegex_matchAt s
  || match s with
     | String _ rest => tcbAliasImportRegex_test rest
     | EmptyString => false
     end.

(** [a[i]], [None] for [undefined]. *)
Definition Array_at {A} (a : list A) (i : Z) : option A :=
  if i <? 0 then None else a !! Z.to_nat i.

(** [a.filter((x, i) => ...)], from index [i] on. *)
Fixpoint Array_filter_from {A} (f : A -> Z -> bool) (i : Z) (a : list A) : list A :=
  match a with
  | [] => []
  | x :: rest =>
      if f x i then x :: Array_filter_from f (i + 1) rest
      else Array_filter_from f (i + 1) rest
  end.

Definition Array_filter {A} (f : A -> Z -> bool) (a : list A) : list A :=
  Array_filter_from f 0 a.

Section Filter.
(** The two kind names of [common/quick_info]. *)
Variables ALIAS_NAME SYMBOL_PUNC : string.

Definition isImportAlias (part : SymbolDisplayPart) : bool :=
  String.eqb (kind part) ALIAS_NAME && tcbAliasImportRegex_test (text part).

Definition isDotPunctuation (part : SymbolDisplayPart) : bool :=
  String.eqb (kind part) SYMBOL_PUNC && String.eqb (text part) ".".

Definition filterAliasImports (displayParts : list SymbolDisplayPart) :
    list SymbolDisplayPart :=
  Array_filter
    (fun part i =>
       let previousPart := Array_at displayParts (i - 1) in
       let nextPart := Array_at displayParts (i + 1) in
       let aliasNameFollowedByDot :=
         isImportAlias part
         && match nextPart with
            | Some nextPart => isDotPunctuation nextPart
            | None => false
            end in
       let dotPrecededByAlias :=
         isDotPunctuation part
         && match previousPart with
            | Some previousPart => isImportAlias previousPart
            | None => false
            end in
       negb aliasNameFollowedByDot && negb dotPrecededByAlias)
    displayParts.

(** The filter as the specification words it: one pass that looks only at
    the neighbours of each element. [previous] is the element just before
    [parts] in the input, if any. *)
Definition suppressed (previous : option SymbolDisplayPart) (part : SymbolDisplayPart)
    (next : option SymbolDisplayPart) : bool :=
  (isImportAlias part && from_option isDotPunctuation false next)
  || (isDotPunctuation part && from_option isImportAlias false previous).

Fixpoint localFilter (previous : option SymbolDisplayPart) (parts : list SymbolDisplayPart) :
    list SymbolDisplayPart :=
  match parts with
  | [] => []
  | part :: rest =>
      if suppressed previous part (head rest) then localFilter (Some part) rest
      else part :: localFilter (Some part) rest
  end.

End Filter.

(** A text holds an [i] followed by one digit or more, anywhere. *)
Definition containsGeneratedAlias (s : string) : Prop :=
  ∃ before digits after,
    s = before ++ "i" ++ digits ++ after ∧
    digits ≠ "" ∧
    Forall (fun c => isDigit c = true) (list_ascii_of_string digits).

(** An alias-name part, as the filter takes it: its kind is the alias name
    kind and its text holds a generated alias. *)
Definition aliasNamePart (ALIAS_NAME : string) (part : SymbolDisplayPart) : Prop :=
  kind part = ALIAS_NAME ∧ containsGeneratedAlias (text part).

(** A dot punctuation part: its kind is the punctuation kind and its text
    is a single dot. *)
Definition dotPunctuationPart (SYMBOL_PUNC : string) (part : SymbolDisplayPart) : Prop :=
  kind part = SYMBOL_PUNC ∧ text part = ".".

End DisplayText.

(** *** A selector capability for the examples

    A stand-in for [CssSelector.parse] and [SelectorMatcher], used where an
    example needs a concrete capability. It reads one compound selector: an
    element name, [[name]] and [[name=value]] attributes, and
    [:not(element)] clauses. *)
Module SelectorDouble.

Record Compound := mkCompound {
  element : option string;
  attrs : list (string * string);
  notElements : list string
}.

Inductive Mode :=
| Top
| InElement (acc : string)
| InName (acc : string)
| InValue (name acc : string)
| InNotPrefix (expected : string)
| InNot (acc : string).

Definition snoc (acc : string) (c : ascii) : string := acc ++ String c "".

Definition setElement (e : string) (s : Compound) : Compound :=
  {| element := Some e; attrs := attrs s; notElements := notElements s |}.

Definition addAttribute (n v : string) (s : Compound) : Compound :=
  {| element := element s; attrs := attrs s ++ [(n, v)]; notElements := notElements s |}.

Definition addNot (e : string) (s : Compound) : Compound :=
  {| element := element s; attrs := attrs s; notElements := notElements s ++ [e] |}.

Fixpoint scan (mode : Mode) (cur : Compound) (s : string) : Compound :=
  match s with
  | EmptyString =>
      match mode with
      | InElement acc => setElement acc cur
      | _ => cur
      end
  | String c rest =>
      match mode with
      | Top =>
          if Ascii.eqb c "[" then scan (InName "") cur rest
          else if Ascii.eqb c ":" then scan (InNotPrefix "not(") cur rest
          else scan (InElement (String c "")) cur rest
      | InElement acc =>
          if Ascii.eqb c "[" then scan (InName "") (setElement acc cur) rest
          else if Ascii.eqb c ":" then scan (InNotPrefix "not(") (setElement acc cur) rest
          else scan (InElement (snoc acc c)) cur rest
      | InName acc =>
          if Ascii.eqb c "=" then scan (InValue acc "") cur rest
          else if Ascii.eqb c "]" then scan Top (addAttribute acc "" cur) rest
          else scan (InName (snoc acc c)) cur rest
      | InValue n acc =>
          if Ascii.eqb c "]" then scan Top (addAttribute n acc cur) rest
          else scan (InValue n (snoc acc c)) cur rest
      | InNotPrefix expected =>
          match expected with
          | String e EmptyString => if Ascii.eqb c e then scan (InNot "") cur rest else scan Top cur rest
          | String e more => if Ascii.eqb c e then scan (InNotPrefix more) cur rest else scan Top cur rest
          | EmptyString => scan Top cur rest
          end
      | InNot acc =>
          if Ascii.eqb c ")" then scan Top (addNot acc cur) rest
          else scan (InNot (snoc acc c)) cur rest
      end
  end.

Definition parse (s : string) : list Compound :=
  [scan Top {| element := None; attrs := []; notElements := [] |} s].

(** The host has the attribute [n], with the value [v] when the directive
    asks for one. *)
Definition hasAttribute (host : Compound) (nv : string * string) : bool :=
  existsb
    (fun hv => String.eqb (fst hv) (fst nv)
               && (String.eqb (snd nv) "" || String.eqb (snd hv) (snd nv)))
    (attrs host).

(** One selector of a directive against the selector of the host: the
    directive's element and attributes are all on the host, and no
    [:not(element)] names the host's element. A selector with nothing but
    [:not] clauses asks for some element. *)
Definition selects (dir host : Compound) : bool :=
  match element dir, attrs dir with
  | None, [] =>
      match notElements dir with
      | [] => false
      | _ => bool_decide (is_Some (element host))
      end
  | _, _ => true
  end
  && match element dir with
     | Some e => bool_decide (element host = Some e)
     | None => true
     end
  && forallb (hasAttribute host) (attrs dir)
  && forallb (fun e => negb (bool_decide (element host = Some e))) (notElements dir).

#[local] Instance api : Attribution.SelectorApi := {|
  Attribution.CssSelector := Compound;
  Attribution.CssSelector_parse := parse;
  Attribution.SelectorMatcher_match selectables sel := existsb (fun dir => selects dir sel) selectables
|}.

End SelectorDouble.

(** *** Further helpers of [utils.ts] and closed forms used below *)
Module Sequences.

(** [flatMap]: the loop pushes, for each item in turn, the elements of
    [f(x)] at the end of [results]. *)
Definition flatMap {T R} (items : list T) (f : T -> list R) : list R :=
  foldl (fun results x => (results ++ f x)%list) [] items.

End Sequences.

Module AttributionTests.
Import Attribution.

(** The test of the [filter] callback of [getDirectiveMatchesForSelector],
    for the compound selector [text]. *)
Definition matchesText `{api : SelectorApi} (text : string) (dir : DirectiveSymbol) : bool :=
  match selector dir with
  | None => false
  | Some dir_selector =>
      existsb (fun sel => SelectorMatcher_match (CssSelector_parse dir_selector) sel)
        (CssSelector_parse text)
  end.

End AttributionTests.

Module DisplayPairs.
Import DisplayText.

(** The parts without every alias name that has a dot punctuation right
    after it, and without that dot. *)
Fixpoint withoutAliasPairs (ALIAS_NAME SYMBOL_PUNC : string)
    (parts : list SymbolDisplayPart) : list SymbolDisplayPart :=
  match parts with
  | [] => []
  | part :: rest =>
      match rest with
      | next :: after =>
          if isImportAlias ALIAS_NAME part && isDotPunctuation SYMBOL_PUNC next
          then withoutAliasPairs ALIAS_NAME SYMBOL_PUNC after
          else part :: withoutAliasPairs ALIAS_NAME SYMBOL_PUNC rest
      | [] => [part]
      end
  end.

End DisplayPairs.

(** *** Inputs of the examples *)
Module Examples.

(** [class A{}class B{}] in [app.ts]: the range of [A] ends at offset 9,
    where the range of [B] starts. *)
Definition classA : Locator.TsNode :=
  Locator.mkTsNode Locator.ClassDeclaration 0 9 "app.ts" [].

Definition classB : Locator.TsNode :=
  Locator.mkTsNode Locator.ClassDeclaration 9 18 "app.ts" [].

Definition appFile : Locator.SourceFile :=
  {| Locator.fileName := "app.ts"; Locator.statements := [classA; classB] |}.

(** A compiler for which one of the two classes, the one starting at
    [withTemplate], has an (empty) template. *)
Definition compilerFor (withTemplate : Z) : Locator.NgCompiler :=
  {| Locator.getTemplate n := if Locator.pos n =? withTemplate then Some [] else None;
     Locator.getComponentsWithTemplateFile _ := [];
     Locator.getSourceFile _ := Some appFile |}.

(** [<span a>], and two candidates: one whose selector excludes [span]
    elements, one without a selector. *)
Definition spanHost : Attribution.HostNode :=
  Attribution.Element "span"
    [Attribution.mkAttribute Attribution.TextAttribute "a" None] [].

Definition notSpanDirective : Attribution.DirectiveSymbol :=
  {| Attribution.ref := 0; Attribution.selector := Some "[a]:not(span)" |}.

Definition nullDirective : Attribution.DirectiveSymbol :=
  {| Attribution.ref := 1; Attribution.selector := None |}.

(** The names of the display part kinds [aliasName] and [punctuation], the
    values of [ALIAS_NAME] and [SYMBOL_PUNC]. *)
Definition ALIAS_NAME : string := "aliasName".
Definition SYMBOL_PUNC : string := "punctuation".

(** Three candidates for [shared.html]: a class in [b.ts], and in [a.ts] a
    class at offset 5 and a function at offset 50. *)
Definition inB : Locator.TsNode :=
  Locator.mkTsNode Locator.ClassDeclaration 10 40 "b.ts" [].

Definition earlyInA : Locator.TsNode :=
  Locator.mkTsNode Locator.ClassDeclaration 5 45 "a.ts" [].

Definition lateInA : Locator.TsNode :=
  Locator.mkTsNode Locator.FunctionDeclaration 50 90 "a.ts" [].

Definition sharedTemplateCompiler : Locator.NgCompiler :=
  {| Locator.getTemplate _ := Some [];
     Locator.getComponentsWithTemplateFile _ := [inB; earlyInA; lateInA];
     Locator.getSourceFile _ := None |}.

(** [<div myAttr [foo]=x>], the value [x] lying at offsets 18 to 19, and
    the candidates [div[myAttr]], [[myAttr]] and [[foo]]. *)
Definition divTemplate : Span.ParseSourceFile :=
  {| Span.content := "<div myAttr [foo]=x>"; Span.url := "app.html" |}.

Definition spanOf (from to : Z) : Span.ParseSourceSpan :=
  {| Span.span_start := {| Span.file := divTemplate; Span.offset := from;
                           Span.line := 0; Span.col := from |};
     Span.span_end := {| Span.file := divTemplate; Span.offset := to;
                         Span.line := 0; Span.col := to |} |}.

Definition divHost : Attribution.HostNode :=
  Attribution.Element "div"
    [Attribution.mkAttribute Attribution.TextAttribute "myAttr" None]
    [Attribution.mkAttribute Attribution.BoundAttribute "foo" (Some (spanOf 18 19))].

Definition divMyAttrDirective : Attribution.DirectiveSymbol :=
  {| Attribution.ref := 2; Attribution.selector := Some "div[myAttr]" |}.

Definition myAttrDirective : Attribution.DirectiveSymbol :=
  {| Attribution.ref := 3; Attribution.selector := Some "[myAttr]" |}.

Definition fooDirective : Attribution.DirectiveSymbol :=
  {| Attribution.ref := 4; Attribution.selector := Some "[foo]" |}.

End Examples.

(** *** Further inputs *)
Module MoreExamples.

(** The candidates of [Examples.sharedTemplateCompiler], listed in another
    order. *)
Definition shuffledTemplateCompiler : Locator.NgCompiler :=
  {| Locator.getTemplate _ := Some [];
     Locator.getComponentsWithTemplateFile _ :=
       [Examples.lateInA; Examples.inB; Examples.earlyInA];
     Locator.getSourceFile _ := None |}.

(** Two candidates with the same selector [span[a]]. *)
Definition spanADirective : Attribution.DirectiveSymbol :=
  {| Attribution.ref := 5; Attribution.selector := Some "span[a]" |}.

Definition spanATwinDirective : Attribution.DirectiveSymbol :=
  {| Attribution.ref := 6; Attribution.selector := Some "span[a]" |}.

End MoreExamples.

(** ** Properties *)

(** *** Span resolution *)
Module SpanFacts.
Import Span.

Lemma isTemplateNodeWithKeyAndValue_Some (node : Node) :
  isTemplateNodeWithKeyAndValue node = true ↔ ∃ n keySpan, node = Template n ∧ t_keySpan n = Some keySpan.
Proof.
  unfold isTemplateNodeWithKeyAndValue. split.
  - intros [Ht Hk%bool_decide_eq_true]%andb_true_iff.
    destruct node as [n|e]; [|discriminate Ht].
    destruct Hk as [keySpan Hk]. by exists n, keySpan.
  - intros (n & keySpan & -> & Hk). cbn. rewrite Hk.
    by apply bool_decide_eq_true.
Qed.

Lemma getTextSpanOfNode_key (n : TemplateNode) (keySpan : ParseSourceSpan) :
  t_keySpan n = Some keySpan →
  getTextSpanOfNode (Template n) = toTextSpan (Parsed keySpan).
Proof.
  intros Hk. unfold getTextSpanOfNode.
  assert (isTemplateNodeWithKeyAndValue (Template n) = true) as ->.
  { apply isTemplateNodeWithKeyAndValue_Some. by exists n, keySpan. }
  cbn. by rewrite Hk.
Qed.

Lemma getTextSpanOfNode_no_key (node : Node) :
  ownKeySpan node = None →
  getTextSpanOfNode node =
    match instanceofNamed node with
    | Some nameSpan => toTextSpan (Absolute nameSpan)
    | None => toTextSpan (sourceSpan node)
    end.
Proof.
  intros Hk. unfold getTextSpanOfNode.
  destruct (isTemplateNodeWithKeyAndValue node) eqn:Hkv; [|done].
  apply isTemplateNodeWithKeyAndValue_Some in Hkv as (n & keySpan & -> & Hn).
  cbn in Hk. congruence.
Qed.

(** C5. [getTextSpanOfNode] follows a priority order: a template node with
    a [keySpan] gives the normalized [keySpan]; otherwise a [PropertyWrite],
    [MethodCall], [BindingPipe] or [PropertyRead] gives the normalized
    [nameSpan], not the span of the whole expression; every other node gives
    the normalized [sourceSpan]. *)
Theorem getTextSpanOfNode_priority :
  (∀ n keySpan, t_keySpan n = Some keySpan →
     getTextSpanOfNode (Template n) = toTextSpan (Parsed keySpan)) ∧
  (∀ full nameSpan,
     getTextSpanOfNode (Expression (PropertyWrite full nameSpan)) = toTextSpan (Absolute nameSpan) ∧
     getTextSpanOfNode (Expression (MethodCall full nameSpan)) = toTextSpan (Absolute nameSpan) ∧
     getTextSpanOfNode (Expression (BindingPipe full nameSpan)) = toTextSpan (Absolute nameSpan) ∧
     getTextSpanOfNode (Expression (PropertyRead full nameSpan)) = toTextSpan (Absolute nameSpan)) ∧
  (∀ node, ownKeySpan node = None → instanceofNamed node = None →
     getTextSpanOfNode node = toTextSpan (sourceSpan node)) ∧
  (∀ node, instanceofNamed node = None ↔
     ∀ full nameSpan,
       node ≠ Expression (PropertyWrite full nameSpan) ∧
       node ≠ Expression (MethodCall full nameSpan) ∧
       node ≠ Expression (BindingPipe full nameSpan) ∧
       node ≠ Expression (PropertyRead full nameSpan)).
Proof.
  split; [exact getTextSpanOfNode_key|].
  split; [by intros; repeat split; rewrite getTextSpanOfNode_no_key|].
  split.
  - intros node Hk Hn. by rewrite getTextSpanOfNode_no_key, Hn.
  - intros node. split.
    + intros Hn full nameSpan. repeat split; intros ->; discriminate Hn.
    + intros Hne. destruct node as [n|[s m|s m|s m|s m|s m|s m|s]]; try done;
        destruct (Hne s m) as (? & ? & ? & ?); congruence.
Qed.

(** C7, refuted as stated: a span whose end lies before its start gets a
    negative length. *)
Lemma toTextSpan_length_negative :
  ¬ (∀ span : SourceSpan, 0 ≤ length (toTextSpan span)).
Proof.
  intros H.
  specialize (H (Absolute {| abs_start := 5; abs_end := 3 |})).
  cbn in H. lia.
Qed.

(** C7, amended. [toTextSpan] maps an absolute span and a parsed span alike
    to its start and [end - start]; the length is exactly that difference,
    so it is non-negative precisely for a span that does not end before it
    starts, and a zero-length span stays a zero-length [TextSpan]. *)
Theorem toTextSpan_normalizes (span : SourceSpan) :
  toTextSpan span = {| start := startOffset span; length := endOffset span - startOffset span |} ∧
  (0 ≤ length (toTextSpan span) ↔ startOffset span ≤ endOffset span) ∧
  (length (toTextSpan span) = 0 ↔ endOffset span = startOffset span).
Proof.
  destruct span as [[s e]|[[f1 o1 l1 c1] [f2 o2 l2 c2]]]; cbn; repeat split; lia.
Qed.

End SpanFacts.

(** *** Template location *)
Module LocatorFacts.
Import Locator.

Lemma compare_refl (s : string) : String.compare s s = Eq.
Proof.
  pose proof (String.compare_antisym s s) as H.
  destruct (String.compare s s); done.
Qed.

Lemma compare_Lt_trans (a b c : string) :
  String.compare a b = Lt → String.compare b c = Lt → String.compare a c = Lt.
Proof.
  intros Hab Hbc.
  assert (String.le a c) as Hac.
  { trans b; unfold String.le, String.leb; [by rewrite Hab|by rewrite Hbc]. }
  unfold String.le, String.leb in Hac.
  destruct (String.compare a c) eqn:Hc; [|done..].
  apply String.compare_eq_iff in Hc as ->.
  rewrite String.compare_antisym, Hbc in Hab. discriminate Hab.
Qed.

Lemma ltb_Lt (a b : string) : String.ltb a b = true ↔ String.compare a b = Lt.
Proof. unfold String.ltb. destruct (String.compare a b); intuition congruence. Qed.

Lemma ltb_Gt (a b : string) : String.ltb b a = true ↔ String.compare a b = Gt.
Proof.
  rewrite ltb_Lt, (String.compare_antisym a b).
  destruct (String.compare b a); cbn; intuition congruence.
Qed.

(** The comparator is negative, zero or positive exactly as the order of
    the specification asks. *)
Lemma tsDeclarationSortComparator_le (a b : TsNode) :
  comparator_le tsDeclarationSortComparator a b ↔ sortsBefore a b.
Proof.
  unfold comparator_le, tsDeclarationSortComparator, sortsBefore.
  destruct (String.ltb (sourceFileName a) (sourceFileName b)) eqn:Hlt.
  { apply ltb_Lt in Hlt. split; [by left|lia]. }
  destruct (String.ltb (sourceFileName b) (sourceFileName a)) eqn:Hgt.
  { apply ltb_Gt in Hgt. split; [lia|]. intros [H|[H _]].
    - congruence.
    - rewrite H, compare_refl in Hgt. discriminate Hgt. }
  destruct (String.compare (sourceFileName a) (sourceFileName b)) eqn:Hc.
  - apply String.compare_eq_iff in Hc. split; [right; split; [done|lia]|].
    intros [H|[_ H]]; [done|lia].
  - apply ltb_Lt in Hc. congruence.
  - apply ltb_Gt in Hc. congruence.
Qed.

Lemma sortsBefore_total (a b : TsNode) : sortsBefore a b ∨ sortsBefore b a.
Proof.
  unfold sortsBefore.
  destruct (String.compare (sourceFileName a) (sourceFileName b)) eqn:Hc.
  - apply String.compare_eq_iff in Hc.
    destruct (Z.le_ge_cases (getFullStart a) (getFullStart b)); [right|left]; right; done.
  - by left; left.
  - right; left. by rewrite String.compare_antisym, Hc.
Qed.

Lemma sortsBefore_trans (a b c : TsNode) :
  sortsBefore a b → sortsBefore b c → sortsBefore a c.
Proof.
  unfold sortsBefore. intros [Hab|[Hab Hs1]] [Hbc|[Hbc Hs2]].
  - left. by eapply compare_Lt_trans.
  - left. by rewrite <-Hbc.
  - left. by rewrite Hab.
  - right. split; [congruence|lia].
Qed.

Lemma sortsBefore_antisym (a b : TsNode) :
  sortsBefore a b → sortsBefore b a →
  sourceFileName a = sourceFileName b ∧ getFullStart a = getFullStart b.
Proof.
  unfold sortsBefore. intros [Hab|[Hab Hs1]] [Hba|[Hba Hs2]].
  - rewrite String.compare_antisym, Hba in Hab. discriminate Hab.
  - rewrite Hba, compare_refl in Hab. discriminate Hab.
  - rewrite Hab, compare_refl in Hba. discriminate Hba.
  - split; [done|lia].
Qed.

Lemma StronglySorted_impl {A} (R S : relation A) (l : list A) :
  (∀ a b, R a b → S a b) → StronglySorted R l → StronglySorted S l.
Proof.
  intros HRS. induction 1 as [|x l Hl IH Hx]; constructor; [done|].
  eapply Forall_impl; [exact Hx|]. intros y. apply HRS.
Qed.

Section SortFacts.
Context {A : Type} (cmp : A → A → Z).
Hypothesis cmp_total : ∀ a b, cmp a b ≤ 0 ∨ cmp b a ≤ 0.
Hypothesis cmp_trans : ∀ a b c, cmp a b ≤ 0 → cmp b c ≤ 0 → cmp a c ≤ 0.

Lemma Array_insert_Permutation (x : A) (l : list A) : Array_insert cmp x l ≡ₚ x :: l.
Proof.
  induction l as [|y l IH]; cbn; [done|].
  destruct (cmp x y <=? 0); [done|]. by rewrite IH, Permutation_swap.
Qed.

Lemma Array_sort_Permutation (l : list A) : Array_sort cmp l ≡ₚ l.
Proof.
  induction l as [|x l IH]; cbn; [done|].
  by rewrite Array_insert_Permutation, IH.
Qed.

Lemma Array_insert_Sorted (x : A) (l : list A) :
  StronglySorted (comparator_le cmp) l →
  StronglySorted (comparator_le cmp) (Array_insert cmp x l).
Proof.
  induction 1 as [|y l Hl IH Hy]; cbn; [by repeat constructor|].
  destruct (Z.leb_spec (cmp x y) 0) as [Hxy|Hxy].
  - constructor; [by constructor|]. constructor; [done|].
    eapply Forall_impl; [exact Hy|]. intros z Hyz. by eapply cmp_trans.
  - constructor; [done|]. rewrite Array_insert_Permutation. constructor; [|done].
    destruct (cmp_total x y); [lia|done].
Qed.

Lemma Array_sort_Sorted (l : list A) : StronglySorted (comparator_le cmp) (Array_sort cmp l).
Proof.
  induction l as [|x l IH]; cbn; [constructor|by apply Array_insert_Sorted].
Qed.

(** Elements the comparator does not tell apart keep their order. *)
Lemma Array_insert_stable (P : A → bool) (x : A) (l : list A) :
  (∀ y, P x = true → P y = true → cmp x y ≤ 0) →
  List.filter P (Array_insert cmp x l) = List.filter P (x :: l).
Proof.
  intros HP. induction l as [|y l IH]; [done|].
  cbn [Array_insert]. destruct (Z.leb_spec (cmp x y) 0) as [Hxy|Hxy]; [done|].
  cbn [List.filter] in *. rewrite IH.
  destruct (P x) eqn:Hx; [|done].
  destruct (P y) eqn:Hy; [|done].
  specialize (HP y eq_refl Hy). lia.
Qed.

Lemma Array_sort_stable (P : A → bool) (l : list A) :
  (∀ x y, P x = true → P y = true → cmp x y ≤ 0) →
  List.filter P (Array_sort cmp l) = List.filter P l.
Proof.
  intros HP. induction l as [|x l IH]; [done|].
  cbn [Array_sort foldr]. rewrite Array_insert_stable by (intros y; apply HP).
  cbn [List.filter]. fold (Array_sort cmp l). by rewrite IH.
Qed.

End SortFacts.

Lemma sortedComponents_sorted (compiler : NgCompiler) (fileName : string) :
  StronglySorted sortsBefore (sortedComponents compiler fileName).
Proof.
  eapply StronglySorted_impl; [|apply Array_sort_Sorted].
  - intros a b. apply tsDeclarationSortComparator_le.
  - intros a b.
    change (comparator_le tsDeclarationSortComparator a b
            ∨ comparator_le tsDeclarationSortComparator b a).
    rewrite !tsDeclarationSortComparator_le. apply sortsBefore_total.
  - intros a b c Hab Hbc. apply tsDeclarationSortComparator_le.
    apply (sortsBefore_trans a b c); by apply tsDeclarationSortComparator_le.
Qed.

Lemma sortedComponents_Permutation (compiler : NgCompiler) (fileName : string) :
  sortedComponents compiler fileName ≡ₚ getComponentsWithTemplateFile compiler fileName.
Proof. apply Array_sort_Permutation. Qed.

Lemma sortedComponents_stable (compiler : NgCompiler) (fileName : string) (k : TsNode) :
  List.filter (fun c => bool_decide (sameKey k c)) (sortedComponents compiler fileName)
  = List.filter (fun c => bool_decide (sameKey k c))
      (getComponentsWithTemplateFile compiler fileName).
Proof.
  apply Array_sort_stable.
  intros x y [Hx1 Hx2]%bool_decide_eq_true [Hy1 Hy2]%bool_decide_eq_true.
  apply tsDeclarationSortComparator_le. right. split; [congruence|lia].
Qed.

(** The loop returns the first viable element of the list it walks. *)
Lemma firstComponentLoop_first (compiler : NgCompiler) (components : list TsNode) :
  match firstComponentLoop compiler components with
  | Some info =>
      ∃ skipped rest,
        components = (skipped ++ component info :: rest)%list ∧
        Forall (fun c => ¬ viable compiler c) skipped ∧
        isClassDeclaration (component info) = true ∧
        getTemplate compiler (component info) = Some (template info)
  | None => Forall (fun c => ¬ viable compiler c) components
  end.
Proof.
  induction components as [|c rest IH]; cbn; [done|].
  destruct (isClassDeclaration c) eqn:Hclass; cbn.
  - destruct (getTemplate compiler c) as [tpl|] eqn:Htpl.
    + exists [], rest. by repeat split.
    + assert (¬ viable compiler c) as Hc by (intros [_ ?]; done).
      destruct (firstComponentLoop compiler rest) as [info|].
      * destruct IH as (skipped & rest' & -> & Hs & Hi). exists (c :: skipped), rest'.
        split; [done|]. split; [by constructor|done].
      * by constructor.
  - assert (¬ viable compiler c) as Hc by (intros [? _]; congruence).
    destruct (firstComponentLoop compiler rest) as [info|].
    + destruct IH as (skipped & rest' & -> & Hs & Hi). exists (c :: skipped), rest'.
      split; [done|]. split; [by constructor|done].
    + by constructor.
Qed.

(** In [b.ts], then twice in [a.ts]: the two of [a.ts] come first, the
    one starting later ahead, and the first of them with a template is
    returned. *)
Example getFirstComponentForTemplateFile_example :
  sortedComponents Examples.sharedTemplateCompiler "shared.html"
    = [Examples.lateInA; Examples.earlyInA; Examples.inB] ∧
  getFirstComponentForTemplateFile "shared.html" Examples.sharedTemplateCompiler
    = Some {| template := []; component := Examples.earlyInA |}.
Proof. split; vm_compute; reflexivity. Qed.

(** C4. External mode sorts the candidates by a total order, the file path
    ascending first and, in one file, the raw start offset descending
    (candidates the order does not tell apart keep their places), and
    returns the first class declaration in that order whose template is not
    null, passing over the other candidates; when there is none it returns
    not-found. *)
Theorem getFirstComponentForTemplateFile_first_viable (fileName : string)
    (compiler : NgCompiler) :
  ((∀ a b, sortsBefore a b ∨ sortsBefore b a) ∧
   (∀ a b c, sortsBefore a b → sortsBefore b c → sortsBefore a c) ∧
   (∀ a b, sortsBefore a b → sortsBefore b a →
      sourceFileName a = sourceFileName b ∧ getFullStart a = getFullStart b) ∧
   (∀ a b, tsDeclarationSortComparator a b ≤ 0 ↔ sortsBefore a b)) ∧
  sortedComponents compiler fileName ≡ₚ getComponentsWithTemplateFile compiler fileName ∧
  StronglySorted sortsBefore (sortedComponents compiler fileName) ∧
  (∀ k, List.filter (fun c => bool_decide (sameKey k c)) (sortedComponents compiler fileName)
        = List.filter (fun c => bool_decide (sameKey k c))
            (getComponentsWithTemplateFile compiler fileName)) ∧
  match getFirstComponentForTemplateFile fileName compiler with
  | Some info =>
      ∃ skipped rest,
        sortedComponents compiler fileName = (skipped ++ component info :: rest)%list ∧
        Forall (fun c => ¬ viable compiler c) skipped ∧
        isClassDeclaration (component info) = true ∧
        getTemplate compiler (component info) = Some (template info)
  | None => Forall (fun c => ¬ viable compiler c) (getComponentsWithTemplateFile compiler fileName)
  end.
Proof.
  split.
  { split; [exact sortsBefore_total|]. split; [exact sortsBefore_trans|].
    split; [exact sortsBefore_antisym|exact tsDeclarationSortComparator_le]. }
  split; [apply sortedComponents_Permutation|].
  split; [apply sortedComponents_sorted|].
  split; [apply sortedComponents_stable|].
  unfold getFirstComponentForTemplateFile.
  pose proof (firstComponentLoop_first compiler (sortedComponents compiler fileName)) as H.
  destruct (firstComponentLoop compiler (sortedComponents compiler fileName)); [done|].
  by rewrite <-(sortedComponents_Permutation compiler fileName).
Qed.

Lemma classAt_guard (position : Z) (statement : TsNode) :
  negb (isClassDeclaration statement)
    || (position <? pos statement) || (position >? end_ statement) = false
  ↔ classAt position statement.
Proof.
  unfold classAt. rewrite !orb_false_iff, negb_false_iff, Z.ltb_ge, Z.gtb_ltb, Z.ltb_ge.
  tauto.
Qed.

Lemma inlineLoop_skip (position : Z) (compiler : NgCompiler) (before rest : list TsNode) :
  Forall (fun s => ¬ classAt position s) before →
  inlineLoop position compiler (before ++ rest) = inlineLoop position compiler rest.
Proof.
  induction 1 as [|s before Hs _ IH]; [done|]. cbn.
  destruct (negb (isClassDeclaration s) || (position <? pos s) || (position >? end_ s)) eqn:Hg;
    [done|].
  by apply classAt_guard in Hg.
Qed.

Lemma inlineLoop_Some (position : Z) (compiler : NgCompiler) (statements : list TsNode)
    (info : TemplateInfo) :
  inlineLoop position compiler statements = Some info →
  component info ∈ statements ∧ classAt position (component info) ∧
  getTemplate compiler (component info) = Some (template info).
Proof.
  induction statements as [|s rest IH]; cbn; [done|].
  destruct (negb (isClassDeclaration s) || (position <? pos s) || (position >? end_ s)) eqn:Hg.
  - intros (? & ? & ?)%IH. split; [by right|done].
  - apply classAt_guard in Hg.
    destruct (getTemplate compiler s) as [tpl|] eqn:Htpl; [|done].
    intros [= <-]. cbn. split; [by left|done].
Qed.

(** C6, refuted as stated: at offset 9 of [class A{}class B{}] the offset
    lies within [B], whose template is null, and the locator still returns
    [A] and its template, since [A] comes first and holds the offset too. *)
Lemma inline_null_template_not_always_not_found :
  ¬ (∀ fileName position compiler sourceFile d,
       getSourceFile compiler fileName = Some sourceFile →
       d ∈ statements sourceFile →
       classAt position d →
       getTemplate compiler d = None →
       getInlineTemplateInfoAtPosition fileName position compiler = None).
Proof.
  intros H.
  specialize (H "app.ts" 9 (Examples.compilerFor 0) Examples.appFile Examples.classB).
  discriminate H; [done| |split; [done|cbn; lia]|done].
  cbn. apply list_elem_of_In. cbn. tauto.
Qed.

(** C6, amended. In inline mode the statements are walked in order, and
    the first class declaration whose range holds the offset decides: when
    its template is null the locator returns not-found, whatever the later
    declarations are, and otherwise it returns that declaration. A found
    component is always one of the top-level statements. *)
Theorem getInlineTemplateInfoAtPosition_first_class (fileName : string) (position : Z)
    (compiler : NgCompiler) (sourceFile : SourceFile) :
  getSourceFile compiler fileName = Some sourceFile →
  (∀ before d after,
     statements sourceFile = (before ++ d :: after)%list →
     Forall (fun s => ¬ classAt position s) before →
     classAt position d →
     (getTemplate compiler d = None →
      getInlineTemplateInfoAtPosition fileName position compiler = None) ∧
     (∀ tpl, getTemplate compiler d = Some tpl →
      getInlineTemplateInfoAtPosition fileName position compiler =
        Some {| template := tpl; component := d |})) ∧
  (∀ info,
     getInlineTemplateInfoAtPosition fileName position compiler = Some info →
     component info ∈ statements sourceFile ∧
     classAt position (component info) ∧
     getTemplate compiler (component info) = Some (template info)).
Proof.
  intros Hsf. unfold getInlineTemplateInfoAtPosition. rewrite Hsf. split.
  - intros before d after -> Hbefore Hd.
    rewrite inlineLoop_skip by done. cbn.
    apply classAt_guard in Hd. rewrite Hd.
    split; [by intros ->|by intros tpl ->].
  - intros info. apply inlineLoop_Some.
Qed.

(** At offset 9 of [class A{}class B{}], with a null template for [A] and a
    template for [B]: not-found, [B] is not consulted. *)
Lemma getInlineTemplateInfoAtPosition_first_class_witness :
  getInlineTemplateInfoAtPosition "app.ts" 9 (Examples.compilerFor 9) = None.
Proof.
  refine (proj1 (proj1 (getInlineTemplateInfoAtPosition_first_class
            "app.ts" 9 (Examples.compilerFor 9) Examples.appFile eq_refl)
          [] Examples.classA [Examples.classB] eq_refl _ _) eq_refl).
  - constructor.
  - split; [reflexivity|cbn; lia].
Defined.

End LocatorFacts.

(** *** Directive attribution *)
Module AttributionFacts.
Import Attribution.

Section JsSetFacts.
Context {A : Type} `{EqDecision A}.
Implicit Types (s l : list A) (x y : A).

Lemma Set_has_true s x : Set_has s x = true ↔ x ∈ s.
Proof. unfold Set_has. apply bool_decide_eq_true. Qed.

Lemma Set_has_false s x : Set_has s x = false ↔ x ∉ s.
Proof. unfold Set_has. apply bool_decide_eq_false. Qed.

Lemma elem_of_Set_add s x y : y ∈ Set_add s x ↔ y ∈ s ∨ y = x.
Proof.
  unfold Set_add. destruct (Set_has s x) eqn:Hx.
  - apply Set_has_true in Hx. split; [tauto|]. by intros [?| ->].
  - rewrite elem_of_app, list_elem_of_singleton. done.
Qed.

Lemma NoDup_Set_add s x : NoDup s → NoDup (Set_add s x).
Proof.
  intros Hs. unfold Set_add. destruct (Set_has s x) eqn:Hx; [done|].
  apply Set_has_false in Hx. apply NoDup_app. split; [done|].
  split; [|apply NoDup_singleton].
  intros y Hy ->%list_elem_of_singleton. done.
Qed.

(** Adding the elements [l] one by one that pass the test [keep]. *)
Lemma foldl_add_if (keep : A → bool) l s :
  let result := foldl (fun acc x => if keep x then Set_add acc x else acc) s l in
  (NoDup s → NoDup result) ∧
  ∀ y, y ∈ result ↔ y ∈ s ∨ (y ∈ l ∧ keep y = true).
Proof.
  revert s. induction l as [|x l IH]; intros s; cbn.
  - split; [done|]. intros y. rewrite elem_of_nil. tauto.
  - destruct (IH (if keep x then Set_add s x else s)) as [IHn IHe]. split.
    + intros Hs. apply IHn. destruct (keep x); [by apply NoDup_Set_add|done].
    + intros y. rewrite IHe, elem_of_cons. destruct (keep x) eqn:Hk.
      * rewrite elem_of_Set_add. intuition congruence.
      * intuition congruence.
Qed.

Lemma elem_of_Set_from l y : y ∈ Set_from l ↔ y ∈ l.
Proof.
  destruct (foldl_add_if (fun _ => true) l []) as [_ He].
  unfold Set_from. rewrite (He y), elem_of_nil. intuition.
Qed.

Lemma NoDup_Set_from l : NoDup (Set_from l).
Proof.
  destruct (foldl_add_if (fun _ => true) l []) as [Hn _].
  apply Hn, NoDup_nil_2.
Qed.

Lemma elem_of_difference (left right : list A) y :
  y ∈ difference left right ↔ y ∈ left ∧ y ∉ right.
Proof.
  destruct (foldl_add_if (fun x => negb (Set_has right x)) left []) as [_ He].
  unfold difference. rewrite (He y), elem_of_nil, negb_true_iff, Set_has_false.
  tauto.
Qed.

Lemma NoDup_difference (left right : list A) : NoDup (difference left right).
Proof.
  destruct (foldl_add_if (fun x => negb (Set_has right x)) left []) as [Hn _].
  apply Hn, NoDup_nil_2.
Qed.

End JsSetFacts.

Lemma String_app_nil_r (s : string) : s ++ "" = s.
Proof.
  induction s as [|c s IH]; [done|].
  change (String c (s ++ "") = String c s). by rewrite IH.
Qed.

Lemma String_app_assoc (a b c : string) : (a ++ b) ++ c = a ++ (b ++ c).
Proof.
  induction a as [|x a IH]; [done|].
  change (String x ((a ++ b) ++ c) = String x (a ++ (b ++ c))). by rewrite IH.
Qed.

Lemma Array_join_empty (a : list string) : Array_join "" a = foldr String.append "" a.
Proof.
  induction a as [|x [|y a] IH]; [done| |].
  - cbn. by rewrite String_app_nil_r.
  - change (Array_join "" (x :: y :: a)) with (x ++ "" ++ Array_join "" (y :: a)).
    by rewrite IH.
Qed.

Lemma toAttributeString_text (a : Attribute) :
  toAttributeString a = "[" ++ attr_name a ++ "=" ++ valueText a ++ "]".
Proof. unfold toAttributeString, valueText. by destruct (valueSpan a). Qed.

(** Joining the rendered attributes gives the serialization. *)
Lemma join_serialize (attrs : list Attribute) :
  Array_join "" (map toAttributeString attrs) = serialize attrs.
Proof.
  rewrite Array_join_empty. induction attrs as [|a attrs IH]; [done|].
  cbn [map foldr serialize]. rewrite IH, toAttributeString_text.
  by rewrite !String_app_assoc.
Qed.

Lemma getNodeName_tagName (host : HostNode) : getNodeName host = tagName host.
Proof. by destruct host. Qed.

Lemma getAttributes_all (host : HostNode) : getAttributes host = allAttributes host.
Proof.
  destruct host as [name attributes inputs|name attributes inputs templateAttrs];
    unfold allAttributes; cbn.
  - by rewrite app_nil_r.
  - by rewrite <-app_assoc.
Qed.

Lemma filter_excluding_name (name : string) (host : HostNode) :
  List.filter (fun a => negb (String.eqb (attr_name a) name)) (getAttributes host)
  = attributesWithout name host.
Proof.
  unfold attributesWithout. rewrite getAttributes_all.
  induction (allAttributes host) as [|a l IH]; [done|]. cbn. rewrite IH.
  destruct (String.eqb_spec (attr_name a) name) as [Heq|Hne]; cbn.
  - by rewrite bool_decide_eq_false_2 by (intros ?; done).
  - by rewrite bool_decide_eq_true_2.
Qed.

Section EngineFacts.
Context `{api : SelectorApi}.
Implicit Types (d : DirectiveSymbol) (directives : list DirectiveSymbol).

Lemma elem_of_getDirectiveMatchesForSelector directives (text : string) d :
  d ∈ getDirectiveMatchesForSelector directives text ↔ matching directives text d.
Proof.
  unfold getDirectiveMatchesForSelector, matching, matches.
  destruct (CssSelector_parse text) as [|sel0 sels] eqn:Hparse; cbn [List.length Nat.eqb].
  { rewrite elem_of_nil. split; [done|]. intros (_ & ? & _ & ? & []%elem_of_nil & _). }
  rewrite elem_of_Set_from, list_elem_of_In, filter_In, <-list_elem_of_In.
  split.
  - intros [Hd Hm]. split; [done|].
    destruct (selector d) as [dir_selector|]; [|done].
    exists dir_selector. split; [done|].
    apply existsb_exists in Hm as (sel & Hsel & Hm). exists sel.
    by rewrite list_elem_of_In.
  - intros (Hd & dir_selector & -> & sel & Hsel & Hm). split; [done|].
    apply existsb_exists. exists sel. by rewrite <-list_elem_of_In.
Qed.

Lemma NoDup_getDirectiveMatchesForSelector directives (text : string) :
  NoDup (getDirectiveMatchesForSelector directives text).
Proof.
  unfold getDirectiveMatchesForSelector.
  destruct (List.length (CssSelector_parse text) =? 0)%nat;
    [apply NoDup_nil_2|apply NoDup_Set_from].
Qed.

Lemma matching_selector directives (text : string) d :
  matching directives text d → selector d ≠ None.
Proof. intros (_ & ? & -> & _). done. Qed.

Lemma elem_of_getDirectiveMatchesForElementTag (element : HostNode) directives d :
  d ∈ getDirectiveMatchesForElementTag element directives ↔
  matching directives (tagName element ++ serialize (allAttributes element)) d ∧
  ¬ matching directives (serialize (allAttributes element)) d.
Proof.
  unfold getDirectiveMatchesForElementTag.
  rewrite elem_of_difference, !elem_of_getDirectiveMatchesForSelector.
  by rewrite join_serialize, getAttributes_all, getNodeName_tagName.
Qed.

Lemma elem_of_getDirectiveMatchesForAttribute (name : string) (hostNode : HostNode)
    directives d :
  d ∈ getDirectiveMatchesForAttribute name hostNode directives ↔
  matching directives (tagName hostNode ++ serialize (allAttributes hostNode)) d ∧
  ¬ matching directives (serialize (attributesWithout name hostNode)) d.
Proof.
  unfold getDirectiveMatchesForAttribute.
  rewrite elem_of_difference, !elem_of_getDirectiveMatchesForSelector.
  by rewrite filter_excluding_name, !join_serialize, getAttributes_all, getNodeName_tagName.
Qed.

End EngineFacts.

(** On [<div myAttr [foo]=x>]: the tag brings [div[myAttr]] alone, the
    attribute [myAttr] brings [div[myAttr]] and [[myAttr]], and [[foo]]
    neither. *)
Example attribution_example :
  let candidates :=
    [Examples.divMyAttrDirective; Examples.myAttrDirective; Examples.fooDirective] in
  serialize (allAttributes Examples.divHost) = "[myAttr=][foo=x]" ∧
  getDirectiveMatchesForElementTag (api := SelectorDouble.api) Examples.divHost candidates
    = [Examples.divMyAttrDirective] ∧
  getDirectiveMatchesForAttribute (api := SelectorDouble.api) "myAttr" Examples.divHost
      candidates
    = [Examples.divMyAttrDirective; Examples.myAttrDirective].
Proof. repeat split; vm_compute; reflexivity. Qed.

(** C1. The result of [getDirectiveMatchesForElementTag] is the set of the
    directives matching the tag name followed by the serialized attributes,
    minus the set of those matching the serialized attributes alone;
    so it never holds a directive whose selector also matches once the tag
    name is stripped. *)
Theorem getDirectiveMatchesForElementTag_is_difference `{api : SelectorApi}
    (element : HostNode) (directives : list DirectiveSymbol) :
  NoDup (getDirectiveMatchesForElementTag element directives) ∧
  (∀ d, d ∈ getDirectiveMatchesForElementTag element directives ↔
        matching directives (tagName element ++ serialize (allAttributes element)) d ∧
        ¬ matching directives (serialize (allAttributes element)) d) ∧
  (∀ d, d ∈ getDirectiveMatchesForElementTag element directives ↔
        d ∈ getDirectiveMatchesForSelector directives
              (tagName element ++ serialize (allAttributes element)) ∧
        d ∉ getDirectiveMatchesForSelector directives (serialize (allAttributes element))) ∧
  Forall (fun d => ¬ matches (serialize (allAttributes element)) d)
    (getDirectiveMatchesForElementTag element directives) ∧
  (∀ name attributes inputs, tagName (Element name attributes inputs) = name) ∧
  (∀ tag attributes inputs templateAttrs,
     tagName (Template tag attributes inputs templateAttrs) = tag) ∧
  (∀ name attributes inputs d,
     d ∈ getDirectiveMatchesForElementTag (Element name attributes inputs) directives ↔
     matching directives (name ++ serialize (attributes ++ inputs)) d ∧
     ¬ matching directives (serialize (attributes ++ inputs)) d) ∧
  (∀ tag attributes inputs templateAttrs d,
     d ∈ getDirectiveMatchesForElementTag (Template tag attributes inputs templateAttrs)
           directives ↔
     matching directives (tag ++ serialize (attributes ++ inputs ++ templateAttrs)) d ∧
     ¬ matching directives (serialize (attributes ++ inputs ++ templateAttrs)) d).
Proof.
  split; [apply NoDup_difference|].
  split; [apply elem_of_getDirectiveMatchesForElementTag|].
  split.
  { intros d. rewrite elem_of_getDirectiveMatchesForElementTag.
    by rewrite !elem_of_getDirectiveMatchesForSelector. }
  split; [|split; [done|split; [done|split]]];
    [|intros name attributes inputs d; rewrite elem_of_getDirectiveMatchesForElementTag;
      unfold allAttributes; cbn [staticAttributes boundAttributes templateAttributes tagName];
      by rewrite app_nil_r
     |intros tag attributes inputs templateAttrs d;
      by rewrite elem_of_getDirectiveMatchesForElementTag].
  apply Forall_forall. intros d.
  rewrite elem_of_getDirectiveMatchesForElementTag.
  intros [[Hd _] Hnot] Hm. apply Hnot. by split.
Qed.

(** C2, refuted as stated: on [<span a>] the selector [[a]:not(span)]
    matches the attributes alone and not the tag with the attributes, so the
    union holds a directive that is not among all the matches. *)
Lemma tag_union_not_all_matches :
  ¬ (∀ (api : SelectorApi) (host : HostNode) (directives : list DirectiveSymbol) d,
       d ∈ getDirectiveMatchesForElementTag host directives
       ∨ d ∈ getDirectiveMatchesForSelector directives (serialize (allAttributes host))
       ↔ d ∈ getDirectiveMatchesForSelector directives
               (tagName host ++ serialize (allAttributes host))).
Proof.
  intros H.
  destruct (H SelectorDouble.api Examples.spanHost [Examples.notSpanDirective]
              Examples.notSpanDirective) as [H1 _].
  assert (Hwithout :
    getDirectiveMatchesForSelector (api := SelectorDouble.api) [Examples.notSpanDirective]
      (serialize (allAttributes Examples.spanHost)) = [Examples.notSpanDirective])
    by (vm_compute; reflexivity).
  assert (Hall :
    getDirectiveMatchesForSelector (api := SelectorDouble.api) [Examples.notSpanDirective]
      (tagName Examples.spanHost ++ serialize (allAttributes Examples.spanHost)) = [])
    by (vm_compute; reflexivity).
  rewrite Hwithout, Hall in H1.
  eapply elem_of_nil, H1. right. apply list_elem_of_singleton. reflexivity.
Qed.

(** C2, amended. The tag attribution and the directives matching the
    serialized attributes alone never share a directive, and their union is
    the union of all the matches with the directives matching the attributes
    alone; it is the set of all the matches exactly when every directive
    matching the attributes alone also matches with the tag name in front. *)
Theorem tag_attribution_union `{api : SelectorApi} (host : HostNode)
    (directives : list DirectiveSymbol) :
  let forTag := getDirectiveMatchesForElementTag host directives in
  let withoutTag := getDirectiveMatchesForSelector directives (serialize (allAttributes host)) in
  let allMatches :=
    getDirectiveMatchesForSelector directives (tagName host ++ serialize (allAttributes host)) in
  (∀ d, d ∈ forTag → d ∉ withoutTag) ∧
  (∀ d, d ∈ forTag ∨ d ∈ withoutTag ↔ d ∈ allMatches ∨ d ∈ withoutTag) ∧
  ((∀ d, d ∈ forTag ∨ d ∈ withoutTag ↔ d ∈ allMatches) ↔
   (∀ d, d ∈ withoutTag → d ∈ allMatches)).
Proof.
  cbn zeta.
  assert (Htag : ∀ d, d ∈ getDirectiveMatchesForElementTag host directives ↔
    d ∈ getDirectiveMatchesForSelector directives
          (tagName host ++ serialize (allAttributes host)) ∧
    d ∉ getDirectiveMatchesForSelector directives (serialize (allAttributes host))).
  { intros d. rewrite elem_of_getDirectiveMatchesForElementTag.
    by rewrite !elem_of_getDirectiveMatchesForSelector. }
  split; [intros d; rewrite Htag; tauto|].
  split.
  - intros d. rewrite Htag.
    destruct (decide (d ∈ getDirectiveMatchesForSelector directives
                            (serialize (allAttributes host)))); tauto.
  - split.
    + intros Hunion d Hd. apply Hunion. by right.
    + intros Hsub d. rewrite Htag. split; [|intros Hd].
      * intros [[? _]|?]; [done|by apply Hsub].
      * destruct (decide (d ∈ getDirectiveMatchesForSelector directives
                                (serialize (allAttributes host)))); tauto.
Qed.

(** C3. The result of [getDirectiveMatchesForAttribute] is the set of the
    directives matching the tag name followed by all the serialized
    attributes, minus the set of those matching the serialization, without
    the tag name, of the attributes not called [name]. An attribute
    serializes as [[name=value]], the value being its value text or the empty
    string; the static attributes come first, then the bound ones, then, on
    a Template host only, the template attributes. *)
Theorem getDirectiveMatchesForAttribute_is_difference `{api : SelectorApi}
    (name : string) (hostNode : HostNode) (directives : list DirectiveSymbol) :
  NoDup (getDirectiveMatchesForAttribute name hostNode directives) ∧
  (∀ d, d ∈ getDirectiveMatchesForAttribute name hostNode directives ↔
        matching directives (tagName hostNode ++ serialize (allAttributes hostNode)) d ∧
        ¬ matching directives (serialize (attributesWithout name hostNode)) d) ∧
  (∀ a, a ∈ attributesWithout name hostNode ↔
        a ∈ allAttributes hostNode ∧ attr_name a ≠ name) ∧
  (∀ a rest,
     serialize (a :: rest) =
       "[" ++ attr_name a ++ "="
           ++ match valueSpan a with
              | Some span => ParseSourceSpan_toString span
              | None => ""
              end
           ++ "]" ++ serialize rest) ∧
  serialize [] = "" ∧
  allAttributes hostNode =
    match hostNode with
    | Element _ attributes inputs => (attributes ++ inputs)%list
    | Template _ attributes inputs templateAttrs =>
        (attributes ++ inputs ++ templateAttrs)%list
    end ∧
  tagName hostNode =
    match hostNode with
    | Element name _ _ => name
    | Template tag _ _ _ => tag
    end ∧
  (∀ tag attributes inputs templateAttrs d,
     d ∈ getDirectiveMatchesForAttribute name
           (Template tag attributes inputs templateAttrs) directives ↔
     matching directives (tag ++ serialize (attributes ++ inputs ++ templateAttrs)) d ∧
     ¬ matching directives
         (serialize (List.filter (fun a => bool_decide (attr_name a ≠ name))
                       (attributes ++ inputs ++ templateAttrs))) d) ∧
  (∀ tag attributes inputs d,
     d ∈ getDirectiveMatchesForAttribute name (Element tag attributes inputs) directives ↔
     matching directives (tag ++ serialize (attributes ++ inputs)) d ∧
     ¬ matching directives
         (serialize (List.filter (fun a => bool_decide (attr_name a ≠ name))
                       (attributes ++ inputs))) d).
Proof.
  split; [apply NoDup_difference|].
  split; [apply elem_of_getDirectiveMatchesForAttribute|].
  split.
  { intros a. unfold attributesWithout.
    rewrite list_elem_of_In, filter_In, <-list_elem_of_In, bool_decide_eq_true. done. }
  split.
  { intros a rest. cbn [serialize foldr]. unfold valueText. by destruct (valueSpan a). }
  split; [done|].
  split; [destruct hostNode; unfold allAttributes; cbn; [by rewrite app_nil_r|done]|].
  split; [by destruct hostNode|]. split.
  - intros tag attributes inputs templateAttrs d.
    by rewrite elem_of_getDirectiveMatchesForAttribute.
  - intros tag attributes inputs d. rewrite elem_of_getDirectiveMatchesForAttribute.
    unfold attributesWithout, allAttributes.
    cbn [staticAttributes boundAttributes templateAttributes tagName].
    by rewrite app_nil_r.
Qed.

(** C8. A directive whose selector is null is in no attribution result,
    whatever the host node, the attribute name and the candidates. *)
Theorem null_selector_never_attributed `{api : SelectorApi} (name : string)
    (hostNode : HostNode) (directives : list DirectiveSymbol) (d : DirectiveSymbol) :
  selector d = None →
  (d ∉ getDirectiveMatchesForElementTag hostNode directives) ∧
  (d ∉ getDirectiveMatchesForAttribute name hostNode directives).
Proof.
  intros Hnull. split.
  - rewrite elem_of_getDirectiveMatchesForElementTag.
    intros [Hm%matching_selector _]. done.
  - rewrite elem_of_getDirectiveMatchesForAttribute.
    intros [Hm%matching_selector _]. done.
Qed.

(** On [<span a>], a candidate without a selector is attributed neither to
    the tag nor to the attribute [a]. *)
Lemma null_selector_never_attributed_witness :
  (Examples.nullDirective ∉
     getDirectiveMatchesForElementTag (api := SelectorDouble.api) Examples.spanHost
       [Examples.nullDirective; Examples.notSpanDirective]) ∧
  (Examples.nullDirective ∉
     getDirectiveMatchesForAttribute (api := SelectorDouble.api) "a" Examples.spanHost
       [Examples.nullDirective; Examples.notSpanDirective]).
Proof.
  apply (null_selector_never_attributed (api := SelectorDouble.api)). reflexivity.
Defined.

End AttributionFacts.

(** *** The display-part filter *)
Module DisplayTextFacts.
Import DisplayText.

Lemma Array_at_previous {A} (before rest : list A) :
  Array_at (before ++ rest) (Z.of_nat (List.length before) - 1) = last before.
Proof.
  unfold Array_at. destruct before as [|x before] using rev_ind; [done|].
  rewrite length_app, last_snoc. cbn [List.length].
  destruct (Z.ltb_spec (Z.of_nat (List.length before + 1) - 1) 0) as [Hlt|_]; [lia|].
  replace (Z.to_nat (Z.of_nat (List.length before + 1) - 1)) with (List.length before) by lia.
  rewrite <-app_assoc. cbn [app]. by apply list_lookup_middle.
Qed.

Lemma Array_at_next {A} (before : list A) (x : A) (rest : list A) :
  Array_at (before ++ x :: rest) (Z.of_nat (List.length before) + 1) = head rest.
Proof.
  unfold Array_at.
  destruct (Z.ltb_spec (Z.of_nat (List.length before) + 1) 0) as [Hlt|_]; [lia|].
  replace (Z.to_nat (Z.of_nat (List.length before) + 1)) with (List.length before + 1)%nat by lia.
  rewrite lookup_app_r by lia.
  replace (List.length before + 1 - List.length before)%nat with 1%nat by lia.
  by destruct rest.
Qed.

Section FilterFacts.
Variables ALIAS_NAME SYMBOL_PUNC : string.

Abbreviation isImportAlias := (isImportAlias ALIAS_NAME).
Abbreviation isDotPunctuation := (isDotPunctuation SYMBOL_PUNC).
Abbreviation filterAliasImports := (filterAliasImports ALIAS_NAME SYMBOL_PUNC).
Abbreviation localFilter := (localFilter ALIAS_NAME SYMBOL_PUNC).
Abbreviation suppressed := (suppressed ALIAS_NAME SYMBOL_PUNC).

(** The callback of [filterAliasImports], for the array [displayParts]. *)
Let keep (displayParts : list SymbolDisplayPart) (part : SymbolDisplayPart) (i : Z) : bool :=
  negb (isImportAlias part
        && match Array_at displayParts (i + 1) with
           | Some nextPart => isDotPunctuation nextPart
           | None => false
           end)
  && negb (isDotPunctuation part
           && match Array_at displayParts (i - 1) with
              | Some previousPart => isImportAlias previousPart
              | None => false
              end).

Lemma keep_suppressed (before : list SymbolDisplayPart) (part : SymbolDisplayPart)
    (rest : list SymbolDisplayPart) :
  keep (before ++ part :: rest) part (Z.of_nat (List.length before))
  = negb (suppressed (last before) part (head rest)).
Proof.
  unfold keep, suppressed. rewrite Array_at_next, Array_at_previous.
  destruct (head rest), (last before); cbn; by rewrite negb_orb.
Qed.

Lemma Array_filter_from_local (before rest : list SymbolDisplayPart) :
  Array_filter_from (keep (before ++ rest)) (Z.of_nat (List.length before)) rest
  = localFilter (last before) rest.
Proof.
  revert before. induction rest as [|part rest IH]; intros before; [done|].
  cbn [Array_filter_from DisplayText.localFilter]. rewrite keep_suppressed.
  specialize (IH (before ++ [part])%list).
  rewrite <-app_assoc, length_app, last_snoc in IH. cbn [app List.length] in IH.
  replace (Z.of_nat (List.length before + 1)) with (Z.of_nat (List.length before) + 1) in IH
    by lia.
  rewrite IH. by destruct (suppressed (last before) part (head rest)).
Qed.

Lemma filterAliasImports_localFilter (displayParts : list SymbolDisplayPart) :
  filterAliasImports displayParts = localFilter None displayParts.
Proof. exact (Array_filter_from_local [] displayParts). Qed.

Lemma localFilter_sublist (previous : option SymbolDisplayPart)
    (parts : list SymbolDisplayPart) :
  sublist (localFilter previous parts) parts.
Proof.
  revert previous. induction parts as [|part rest IH]; intros previous; cbn; [done|].
  destruct (suppressed previous part (head rest)); [by apply sublist_cons|by apply sublist_skip].
Qed.

End FilterFacts.

Lemma String_app_cons (c : ascii) (a b : string) : String c a ++ b = String c (a ++ b).
Proof. reflexivity. Qed.

Lemma tcbAliasImportRegex_matchAt_prefix (s : string) :
  tcbAliasImportRegex_matchAt s = true ↔
  ∃ d after, s = String "i" (String d after) ∧ isDigit d = true.
Proof.
  split.
  - destruct s as [|c [|d after]]; cbn; try done.
    + by rewrite andb_false_r.
    + intros [->%Ascii.eqb_eq Hd]%andb_true_iff. by exists d, after.
  - intros (d & after & -> & Hd). cbn. done.
Qed.

(** The regular expression is not anchored: it finds an [i] followed by a
    digit anywhere in the text. *)
Lemma tcbAliasImportRegex_test_contains (s : string) :
  tcbAliasImportRegex_test s = true ↔ containsGeneratedAlias s.
Proof.
  unfold containsGeneratedAlias. split.
  - induction s as [|c s IH]; [done|].
    cbn [tcbAliasImportRegex_test]. intros [Hat|Hrest]%orb_true_iff.
    + apply tcbAliasImportRegex_matchAt_prefix in Hat as (d & after & -> & Hd).
      exists "", (String d ""), after. split; [done|]. split; [done|].
      by repeat constructor.
    + destruct (IH Hrest) as (before & digits & after & -> & Hne & Hds).
      by exists (String c before), digits, after.
  - intros (before & digits & after & -> & Hne & Hds).
    induction before as [|c before IH].
    + destruct digits as [|d digits]; [done|].
      apply Forall_cons_1 in Hds as [Hd _].
      change (tcbAliasImportRegex_test (String "i" (String d (digits ++ after))) = true).
      cbn [tcbAliasImportRegex_test]. apply orb_true_iff. left.
      apply tcbAliasImportRegex_matchAt_prefix. by exists d, (digits ++ after).
    + rewrite String_app_cons. cbn [tcbAliasImportRegex_test].
      apply orb_true_iff. by right.
Qed.

Lemma isImportAlias_aliasNamePart (ALIAS_NAME : string) (part : SymbolDisplayPart) :
  isImportAlias ALIAS_NAME part = true ↔ aliasNamePart ALIAS_NAME part.
Proof.
  unfold isImportAlias, aliasNamePart.
  by rewrite andb_true_iff, String.eqb_eq, tcbAliasImportRegex_test_contains.
Qed.

Lemma isDotPunctuation_dotPunctuationPart (SYMBOL_PUNC : string) (part : SymbolDisplayPart) :
  isDotPunctuation SYMBOL_PUNC part = true ↔ dotPunctuationPart SYMBOL_PUNC part.
Proof.
  unfold isDotPunctuation, dotPunctuationPart.
  by rewrite andb_true_iff, !String.eqb_eq.
Qed.

(** The test of one element against its two neighbours. *)
Lemma suppressed_neighbours (ALIAS_NAME SYMBOL_PUNC : string)
    (previous : option SymbolDisplayPart) (part : SymbolDisplayPart)
    (next : option SymbolDisplayPart) :
  suppressed ALIAS_NAME SYMBOL_PUNC previous part next = true ↔
  (aliasNamePart ALIAS_NAME part ∧
   ∃ after, next = Some after ∧ dotPunctuationPart SYMBOL_PUNC after)
  ∨ (dotPunctuationPart SYMBOL_PUNC part ∧
     ∃ before, previous = Some before ∧ aliasNamePart ALIAS_NAME before).
Proof.
  unfold suppressed.
  rewrite orb_true_iff, !andb_true_iff, isImportAlias_aliasNamePart,
    isDotPunctuation_dotPunctuationPart.
  assert (Hnext : from_option (isDotPunctuation SYMBOL_PUNC) false next = true ↔
            ∃ after, next = Some after ∧ dotPunctuationPart SYMBOL_PUNC after).
  { destruct next as [after|]; cbn.
    - rewrite isDotPunctuation_dotPunctuationPart. split; [by exists after|].
      by intros (? & [= <-] & ?).
    - split; [done|]. by intros (? & ? & _). }
  assert (Hprev : from_option (isImportAlias ALIAS_NAME) false previous = true ↔
            ∃ before, previous = Some before ∧ aliasNamePart ALIAS_NAME before).
  { destruct previous as [before|]; cbn.
    - rewrite isImportAlias_aliasNamePart. split; [by exists before|].
      by intros (? & [= <-] & ?).
    - split; [done|]. by intros (? & ? & _). }
  by rewrite Hnext, Hprev.
Qed.

(** C9. [filterAliasImports] is one local pass: an element is dropped
    exactly when it is an alias name (a part of the alias name kind whose
    text holds a generated alias) with a dot punctuation (a part of the
    punctuation kind whose text is a dot) right after it, or a dot
    punctuation with an alias name right before it; the others pass
    unchanged and in order. So an alias [i0] followed by a dot gives the
    empty sequence, and an alias [i0] alone is returned as it is. *)
Theorem filterAliasImports_local (ALIAS_NAME SYMBOL_PUNC : string)
    (displayParts : list SymbolDisplayPart) :
  filterAliasImports ALIAS_NAME SYMBOL_PUNC displayParts
    = localFilter ALIAS_NAME SYMBOL_PUNC None displayParts ∧
  (∀ previous part rest,
     localFilter ALIAS_NAME SYMBOL_PUNC previous (part :: rest)
     = if suppressed ALIAS_NAME SYMBOL_PUNC previous part (head rest)
       then localFilter ALIAS_NAME SYMBOL_PUNC (Some part) rest
       else part :: localFilter ALIAS_NAME SYMBOL_PUNC (Some part) rest) ∧
  (∀ previous, localFilter ALIAS_NAME SYMBOL_PUNC previous [] = []) ∧
  (∀ previous part next,
     suppressed ALIAS_NAME SYMBOL_PUNC previous part next = true ↔
     (aliasNamePart ALIAS_NAME part ∧
      ∃ after, next = Some after ∧ dotPunctuationPart SYMBOL_PUNC after)
     ∨ (dotPunctuationPart SYMBOL_PUNC part ∧
        ∃ before, previous = Some before ∧ aliasNamePart ALIAS_NAME before)) ∧
  sublist (filterAliasImports ALIAS_NAME SYMBOL_PUNC displayParts) displayParts ∧
  filterAliasImports ALIAS_NAME SYMBOL_PUNC
    [{| kind := ALIAS_NAME; text := "i0" |}; {| kind := SYMBOL_PUNC; text := "." |}] = [] ∧
  filterAliasImports ALIAS_NAME SYMBOL_PUNC [{| kind := ALIAS_NAME; text := "i0" |}]
    = [{| kind := ALIAS_NAME; text := "i0" |}].
Proof.
  split; [apply filterAliasImports_localFilter|].
  split; [done|]. split; [done|].
  split; [apply suppressed_neighbours|].
  split; [rewrite filterAliasImports_localFilter; apply localFilter_sublist|].
  rewrite !filterAliasImports_localFilter.
  split; cbn [localFilter head]; unfold suppressed, isImportAlias, isDotPunctuation;
    cbn [kind text from_option]; rewrite ?String.eqb_refl; cbn;
    change (isDigit "0") with true; by rewrite ?andb_false_r.
Qed.

(** C10, refuted as stated: in [min0] no digit comes right after the [i],
    so the part is not taken for a generated alias and stays, with the dot
    after it. *)
Lemma filterAliasImports_min0_kept :
  isImportAlias Examples.ALIAS_NAME {| kind := Examples.ALIAS_NAME; text := "min0" |} = false ∧
  filterAliasImports Examples.ALIAS_NAME Examples.SYMBOL_PUNC
    [{| kind := Examples.ALIAS_NAME; text := "min0" |};
     {| kind := Examples.SYMBOL_PUNC; text := "." |}]
  = [{| kind := Examples.ALIAS_NAME; text := "min0" |};
     {| kind := Examples.SYMBOL_PUNC; text := "." |}].
Proof. split; vm_compute; reflexivity. Qed.

(** C10, amended. A display part counts as a generated alias exactly when
    its kind is the alias name kind and its text holds, anywhere, an [i] with
    one digit or more right after it: the pattern is not anchored. So an
    alias name part [mini0] followed by a dot is removed like a part [i0],
    while [min0], where an [n] comes between the [i] and the digit, is not an
    alias. *)
Theorem isImportAlias_unanchored (ALIAS_NAME SYMBOL_PUNC : string) (part : SymbolDisplayPart) :
  (isImportAlias ALIAS_NAME part = true ↔
     kind part = ALIAS_NAME ∧ containsGeneratedAlias (text part)) ∧
  filterAliasImports ALIAS_NAME SYMBOL_PUNC
    [{| kind := ALIAS_NAME; text := "mini0" |}; {| kind := SYMBOL_PUNC; text := "." |}] = [] ∧
  isImportAlias ALIAS_NAME {| kind := ALIAS_NAME; text := "min0" |} = false.
Proof.
  split.
  { unfold isImportAlias.
    by rewrite andb_true_iff, String.eqb_eq, tcbAliasImportRegex_test_contains. }
  split.
  - rewrite filterAliasImports_localFilter.
    cbn [localFilter head]; unfold suppressed, isImportAlias, isDotPunctuation;
      cbn [kind text from_option]; rewrite ?String.eqb_refl.
    change (tcbAliasImportRegex_test "mini0") with true.
    cbn. by rewrite ?andb_false_r.
  - unfold isImportAlias. cbn [kind text].
    change (tcbAliasImportRegex_test "min0") with false. apply andb_false_r.
Qed.

End DisplayTextFacts.

(** ** Further properties *)

(** *** Spans *)
Module SpanMore.
Import Span.

(** X1. A [TextSpan] keeps both offsets of the span it comes from: its
    start is the start offset and start plus length is the end offset; so
    two spans, absolute or parsed, give the same [TextSpan] exactly when
    they have the same two offsets. *)
Theorem toTextSpan_endpoints (span other : SourceSpan) :
  start (toTextSpan span) = startOffset span ∧
  start (toTextSpan span) + length (toTextSpan span) = endOffset span ∧
  (toTextSpan span = toTextSpan other ↔
     startOffset span = startOffset other ∧ endOffset span = endOffset other).
Proof.
  assert (Hform : ∀ s, toTextSpan s
            = {| start := startOffset s; length := endOffset s - startOffset s |}).
  { by intros [[??]|[[????] [????]]]. }
  rewrite !Hform. cbn. split; [done|]. split; [lia|]. split.
  - intros [= Hs Hl]. split; [done|lia].
  - intros [-> ->]. done.
Qed.

End SpanMore.

(** *** Template location *)
Module LocatorMore.
Import Locator LocatorFacts.

Lemma append_cons (c : ascii) (a b : string) : String c a ++ b = String c (a ++ b).
Proof. reflexivity. Qed.

Lemma length_append (a b : string) :
  String.length (a ++ b) = (String.length a + String.length b)%nat.
Proof.
  induction a as [|c a IH]; [done|]. rewrite append_cons. cbn. by rewrite IH.
Qed.

Lemma substring_whole (s : string) : substring 0 (String.length s) s = s.
Proof. induction s as [|c s IH]; [done|]. cbn. by rewrite IH. Qed.

Lemma substring_after (a b : string) :
  substring (String.length a) (String.length b) (a ++ b) = b.
Proof.
  induction a as [|c a IH]; [apply substring_whole|].
  rewrite append_cons. cbn. exact IH.
Qed.

Lemma substring_split (s : string) (k : nat) :
  (k ≤ String.length s)%nat →
  s = substring 0 k s ++ substring k (String.length s - k) s.
Proof.
  revert k. induction s as [|c s IH]; intros [|k] Hk; cbn in Hk; try lia.
  - done.
  - by rewrite Nat.sub_0_r, substring_whole.
  - cbn [substring String.length]. rewrite append_cons.
    replace (S (String.length s) - S k)%nat with (String.length s - k)%nat by lia.
    f_equal. apply IH. lia.
Qed.

(** [endsWith] holds exactly for the strings that are some text followed by
    the suffix. *)
Lemma endsWith_suffix (s suffix : string) :
  endsWith s suffix = true ↔ ∃ base, s = base ++ suffix.
Proof.
  unfold endsWith. rewrite andb_true_iff, Nat.leb_le, String.eqb_eq. split.
  - intros [Hle Hsub].
    exists (substring 0 (String.length s - String.length suffix) s).
    pose proof (substring_split s (String.length s - String.length suffix)) as Hsplit.
    replace (String.length s - (String.length s - String.length suffix))%nat
      with (String.length suffix) in Hsplit by lia.
    rewrite Hsub in Hsplit. apply Hsplit. lia.
  - intros [base ->]. rewrite length_append. split; [lia|].
    replace (String.length base + String.length suffix - String.length suffix)%nat
      with (String.length base) by lia.
    apply substring_after.
Qed.

(** X2. The mode is chosen by the file name alone: a name that is some text
    followed by [.ts] is looked up in inline mode, every other name (such as
    one ending in [.tsx] or [.html]) in external mode, where the position
    plays no part. *)
Theorem getTemplateInfoAtPosition_mode (fileName : string) (position : Z)
    (compiler : NgCompiler) :
  ((∃ base, fileName = base ++ ".ts") →
     getTemplateInfoAtPosition fileName position compiler
     = getInlineTemplateInfoAtPosition fileName position compiler) ∧
  ((∀ base, fileName ≠ base ++ ".ts") →
     getTemplateInfoAtPosition fileName position compiler
     = getFirstComponentForTemplateFile fileName compiler ∧
     ∀ other, getTemplateInfoAtPosition fileName other compiler
              = getTemplateInfoAtPosition fileName position compiler).
Proof.
  unfold getTemplateInfoAtPosition. split.
  - intros Hts%endsWith_suffix. by rewrite Hts.
  - intros Hnot. destruct (endsWith fileName ".ts") eqn:Hts; [|done].
    apply endsWith_suffix in Hts as [base ->]. by destruct (Hnot base).
Qed.

(** X3. Whatever the mode, a found component is a class declaration and
    the template returned with it is the one the type checker gives for it;
    in inline mode it is a top-level statement of the file whose range holds
    the position, in external mode one of the candidates of the template
    file. *)
Theorem getTemplateInfoAtPosition_found (fileName : string) (position : Z)
    (compiler : NgCompiler) (info : TemplateInfo) :
  getTemplateInfoAtPosition fileName position compiler = Some info →
  isClassDeclaration (component info) = true ∧
  getTemplate compiler (component info) = Some (template info) ∧
  if endsWith fileName ".ts"
  then ∃ sourceFile, getSourceFile compiler fileName = Some sourceFile ∧
         component info ∈ statements sourceFile ∧
         pos (component info) ≤ position ≤ end_ (component info)
  else component info ∈ getComponentsWithTemplateFile compiler fileName.
Proof.
  unfold getTemplateInfoAtPosition. destruct (endsWith fileName ".ts").
  - unfold getInlineTemplateInfoAtPosition.
    destruct (getSourceFile compiler fileName) as [sourceFile|] eqn:Hsf; [|done].
    intros (Hin & [Hclass Hrange] & Htpl)%inlineLoop_Some.
    split; [done|]. split; [done|]. by exists sourceFile.
  - unfold getFirstComponentForTemplateFile. intros Hfound.
    pose proof (firstComponentLoop_first compiler (sortedComponents compiler fileName)) as H.
    rewrite Hfound in H. destruct H as (skipped & rest & Hsorted & _ & Hclass & Htpl).
    split; [done|]. split; [done|].
    rewrite <-(sortedComponents_Permutation compiler fileName), Hsorted.
    apply elem_of_app. right. by left.
Qed.

(** At offset 9 of [class A{}class B{}], with a template for [A] only. *)
Lemma getTemplateInfoAtPosition_found_witness :
  isClassDeclaration Examples.classA = true ∧
  getTemplate (Examples.compilerFor 0) Examples.classA = Some [] ∧
  ∃ sourceFile, getSourceFile (Examples.compilerFor 0) "app.ts" = Some sourceFile ∧
    Examples.classA ∈ statements sourceFile ∧
    pos Examples.classA ≤ 9 ≤ end_ Examples.classA.
Proof.
  exact (getTemplateInfoAtPosition_found "app.ts" 9 (Examples.compilerFor 0)
           {| template := []; component := Examples.classA |} eq_refl).
Defined.

(** X4. The comparator is consistent, as sorting needs it: swapping the
    two declarations flips its sign, and it is zero exactly for two
    declarations of the same file with the same full start. *)
Theorem tsDeclarationSortComparator_consistent (a b : TsNode) :
  Z.sgn (tsDeclarationSortComparator b a) = - Z.sgn (tsDeclarationSortComparator a b) ∧
  (tsDeclarationSortComparator a b = 0 ↔ sameKey a b).
Proof.
  unfold tsDeclarationSortComparator, sameKey.
  destruct (String.compare (sourceFileName a) (sourceFileName b)) eqn:Hc.
  - apply String.compare_eq_iff in Hc. rewrite Hc.
    assert (String.ltb (sourceFileName b) (sourceFileName b) = false) as ->.
    { unfold String.ltb. by rewrite compare_refl. }
    split; [|split; [intros ?; split; [done|lia]|intros [_ ?]; lia]].
    replace (getFullStart a - getFullStart b)
      with (- (getFullStart b - getFullStart a)) by lia.
    apply Z.sgn_opp.
  - assert (String.ltb (sourceFileName a) (sourceFileName b) = true) as ->
      by by apply ltb_Lt.
    assert (String.ltb (sourceFileName b) (sourceFileName a) = false) as ->.
    { unfold String.ltb. by rewrite String.compare_antisym, Hc. }
    split; [done|]. split; [done|]. intros [Hf _].
    rewrite Hf, compare_refl in Hc. discriminate Hc.
  - assert (String.ltb (sourceFileName a) (sourceFileName b) = false) as ->.
    { unfold String.ltb. by rewrite Hc. }
    assert (String.ltb (sourceFileName b) (sourceFileName a) = true) as ->
      by by apply ltb_Gt.
    split; [done|]. split; [done|]. intros [Hf _].
    rewrite Hf, compare_refl in Hc. discriminate Hc.
Qed.

Lemma firstComponentLoop_ext (c1 c2 : NgCompiler) (components : list TsNode) :
  (∀ n, getTemplate c1 n = getTemplate c2 n) →
  firstComponentLoop c1 components = firstComponentLoop c2 components.
Proof.
  intros Heq. induction components as [|c rest IH]; [done|].
  cbn. by rewrite Heq, IH.
Qed.

(** X5. In external mode the order in which the compiler lists the
    candidates does not matter, as long as no two candidates share both the
    file and the full start: two listings of the same candidates give the
    same result. *)
Theorem getFirstComponentForTemplateFile_order_independent (fileName : string)
    (c1 c2 : NgCompiler) :
  (∀ n, getTemplate c1 n = getTemplate c2 n) →
  getComponentsWithTemplateFile c1 fileName ≡ₚ getComponentsWithTemplateFile c2 fileName →
  (∀ a b, a ∈ getComponentsWithTemplateFile c1 fileName →
          b ∈ getComponentsWithTemplateFile c1 fileName → sameKey a b → a = b) →
  getFirstComponentForTemplateFile fileName c1 = getFirstComponentForTemplateFile fileName c2.
Proof.
  intros Htpl Hperm Hkeys. unfold getFirstComponentForTemplateFile.
  assert (sortedComponents c1 fileName = sortedComponents c2 fileName) as <-.
  { apply (StronglySorted_unique_strong sortsBefore);
      [|apply sortedComponents_sorted..|].
    - intros a b Ha Hb Hab Hba. apply Hkeys.
      + by rewrite <-(sortedComponents_Permutation c1 fileName).
      + by rewrite Hperm, <-(sortedComponents_Permutation c2 fileName).
      + by apply sortsBefore_antisym.
    - by rewrite !sortedComponents_Permutation. }
  by apply firstComponentLoop_ext.
Qed.

(** The three candidates of [shared.html], listed in two orders. *)
Lemma getFirstComponentForTemplateFile_order_independent_witness :
  getFirstComponentForTemplateFile "shared.html" Examples.sharedTemplateCompiler
  = getFirstComponentForTemplateFile "shared.html" MoreExamples.shuffledTemplateCompiler.
Proof.
  apply getFirstComponentForTemplateFile_order_independent.
  - reflexivity.
  - cbn. symmetry.
    apply (Permutation_cons_append [Examples.inB; Examples.earlyInA] Examples.lateInA).
  - cbn. intros a b Ha%list_elem_of_In Hb%list_elem_of_In [Hf Hs].
    cbn in Ha, Hb.
    destruct Ha as [<-|[<-|[<-|[]]]], Hb as [<-|[<-|[<-|[]]]];
      first [reflexivity|discriminate Hf|discriminate Hs].
Defined.

(** X6. The component external mode returns comes, in the order of the
    sort, before every candidate that is a class declaration with a
    template. *)
Theorem getFirstComponentForTemplateFile_least (fileName : string) (compiler : NgCompiler)
    (info : TemplateInfo) (c : TsNode) :
  getFirstComponentForTemplateFile fileName compiler = Some info →
  c ∈ getComponentsWithTemplateFile compiler fileName →
  viable compiler c →
  sortsBefore (component info) c.
Proof.
  unfold getFirstComponentForTemplateFile. intros Hfound Hc Hviable.
  pose proof (firstComponentLoop_first compiler (sortedComponents compiler fileName)) as H.
  rewrite Hfound in H. destruct H as (skipped & rest & Hsorted & Hskipped & _).
  pose proof (sortedComponents_sorted compiler fileName) as Hss.
  rewrite <-(sortedComponents_Permutation compiler fileName), Hsorted in Hc.
  rewrite Hsorted in Hss.
  apply elem_of_app in Hc as [Hc|Hc].
  { rewrite Forall_forall in Hskipped. by destruct (Hskipped c Hc). }
  apply StronglySorted_app_1_r in Hss.
  apply elem_of_cons in Hc as [->|Hc].
  - right. split; [done|lia].
  - apply StronglySorted_cons in Hss as [Hall _].
    rewrite Forall_forall in Hall. by apply Hall.
Qed.

(** The class of [a.ts] is returned, and it sorts before the class of
    [b.ts]. *)
Lemma getFirstComponentForTemplateFile_least_witness :
  sortsBefore Examples.earlyInA Examples.inB.
Proof.
  apply (getFirstComponentForTemplateFile_least "shared.html" Examples.sharedTemplateCompiler
           {| template := []; component := Examples.earlyInA |} Examples.inB).
  - reflexivity.
  - cbn. by left.
  - split; [reflexivity|discriminate].
Defined.

Lemma inlineLoop_None (position : Z) (compiler : NgCompiler) (statements : list TsNode) :
  inlineLoop position compiler statements = None ↔
  Forall (fun s => ¬ classAt position s) statements
  ∨ ∃ before d after,
      statements = (before ++ d :: after)%list ∧
      Forall (fun s => ¬ classAt position s) before ∧
      classAt position d ∧ getTemplate compiler d = None.
Proof.
  induction statements as [|s rest IH]; cbn.
  { split; [by left|done]. }
  destruct (negb (isClassDeclaration s) || (position <? pos s) || (position >? end_ s)) eqn:Hg.
  - assert (¬ classAt position s) as Hs.
    { intros Hs%classAt_guard. congruence. }
    rewrite IH. split.
    + intros [Hall|(before & d & after & -> & Hb & Hd & Htpl)].
      * left. by constructor.
      * right. exists (s :: before), d, after. split; [done|]. split; [by constructor|done].
    + intros [Hall|(before & d & after & Heq & Hb & Hd & Htpl)].
      * left. by apply Forall_cons_1 in Hall as [_ ?].
      * destruct before as [|s' before]; cbn in Heq; injection Heq as <- ->.
        { done. }
        right. exists before, d, after. split; [done|].
        split; [by apply Forall_cons_1 in Hb as [_ ?]|done].
  - apply classAt_guard in Hg. split.
    + destruct (getTemplate compiler s) eqn:Htpl; [done|]. intros _.
      right. by exists [], s, rest.
    + intros [Hall|(before & d & after & Heq & Hb & Hd & Htpl)].
      * by apply Forall_cons_1 in Hall as [? _].
      * destruct before as [|s' before]; cbn in Heq; injection Heq as <- ->.
        { by rewrite Htpl. }
        by apply Forall_cons_1 in Hb as [? _].
Qed.

(** X7. Inline mode answers not-found in exactly three cases: the program
    has no such source file; no top-level class declaration has a range
    holding the position; or the first one that does has a null template. *)
Theorem getInlineTemplateInfoAtPosition_not_found (fileName : string) (position : Z)
    (compiler : NgCompiler) :
  getInlineTemplateInfoAtPosition fileName position compiler = None ↔
  getSourceFile compiler fileName = None
  ∨ ∃ sourceFile,
      getSourceFile compiler fileName = Some sourceFile ∧
      (Forall (fun s => ¬ classAt position s) (statements sourceFile)
       ∨ ∃ before d after,
           statements sourceFile = (before ++ d :: after)%list ∧
           Forall (fun s => ¬ classAt position s) before ∧
           classAt position d ∧ getTemplate compiler d = None).
Proof.
  unfold getInlineTemplateInfoAtPosition.
  destruct (getSourceFile compiler fileName) as [sourceFile|].
  - rewrite inlineLoop_None. split.
    + intros H. right. by exists sourceFile.
    + intros [?|(sf & [= <-] & H)]; done.
  - split; [by left|done].
Qed.

End LocatorMore.

(** *** Directive attribution *)
Module AttributionMore.
Import Attribution AttributionFacts AttributionTests.

Section JsSetOrder.
Context {A : Type} `{EqDecision A}.

Lemma Set_add_fresh (s : list A) (x : A) : x ∉ s → Set_add s x = (s ++ [x])%list.
Proof. intros Hx. unfold Set_add. by rewrite (proj2 (Set_has_false s x) Hx). Qed.

(** On a list without duplicates the loop adds the kept elements in their
    order. *)
Lemma foldl_add_if_NoDup (keep : A → bool) (l acc : list A) :
  NoDup (acc ++ l) →
  foldl (fun acc x => if keep x then Set_add acc x else acc) acc l
  = (acc ++ List.filter keep l)%list.
Proof.
  revert acc. induction l as [|x l IH]; intros acc Hnd; cbn.
  { by rewrite app_nil_r. }
  apply NoDup_app in Hnd as (Hacc & Hdisj & [Hx Hl]%NoDup_cons).
  assert (x ∉ acc) as Hfresh by (intros Hin; apply (Hdisj x Hin); by left).
  destruct (keep x).
  - rewrite Set_add_fresh by done. rewrite IH; [by rewrite <-app_assoc|].
    rewrite <-app_assoc. cbn. apply NoDup_app. split; [done|].
    split; [|by apply NoDup_cons]. intros y Hy. by apply Hdisj.
  - apply IH. apply NoDup_app. split; [done|]. split; [|done].
    intros y Hy Hyl. apply (Hdisj y Hy). by right.
Qed.

Lemma Set_from_NoDup (l : list A) : NoDup l → Set_from l = l.
Proof.
  intros Hl. unfold Set_from.
  transitivity ([] ++ List.filter (fun _ : A => true) l)%list;
    [exact (foldl_add_if_NoDup (fun _ => true) l [] Hl)|].
  clear Hl. induction l as [|x l IH]; [done|]. cbn in *. by rewrite IH.
Qed.

(** X8. [difference] keeps the order of [left]: when [left] lists no
    element twice, as the elements of a set, the result is [left] without the
    elements of [right], in the same order. *)
Theorem difference_keeps_order (left right : list A) :
  NoDup left →
  difference left right = List.filter (fun x => negb (Set_has right x)) left.
Proof.
  intros Hl. unfold difference.
  by rewrite (foldl_add_if_NoDup (fun x => negb (Set_has right x)) left []).
Qed.

End JsSetOrder.

(** From the set 1, 2, 3, 4 without the set 4, 2. *)
Lemma difference_keeps_order_witness :
  difference [1; 2; 3; 4]%nat [4; 2]%nat
  = List.filter (fun x => negb (Set_has [4; 2]%nat x)) [1; 2; 3; 4]%nat.
Proof.
  apply difference_keeps_order.
  exact (bool_decide_unpack (NoDup [1; 2; 3; 4]%nat) I).
Defined.

Section EngineOrder.
Context `{api : SelectorApi}.

Lemma getDirectiveMatchesForSelector_filter (directives : list DirectiveSymbol)
    (text : string) :
  NoDup directives →
  getDirectiveMatchesForSelector directives text
  = List.filter (matchesText text) directives.
Proof.
  intros Hnd. unfold getDirectiveMatchesForSelector, matchesText.
  destruct (CssSelector_parse text) as [|sel sels] eqn:Hparse; cbn [List.length Nat.eqb].
  - induction directives as [|d directives IH]; [done|].
    cbn. apply NoDup_cons in Hnd as [_ Hnd].
    destruct (selector d); by apply IH.
  - apply Set_from_NoDup, NoDup_ListNoDup, List.NoDup_filter. by apply NoDup_ListNoDup.
Qed.

Lemma filter_without_filter (A B : DirectiveSymbol → bool) (directives : list DirectiveSymbol) :
  List.filter (fun d => negb (Set_has (List.filter B directives) d)) (List.filter A directives)
  = List.filter (fun d => A d && negb (B d)) directives.
Proof.
  assert (Hhas : ∀ d, d ∈ directives → Set_has (List.filter B directives) d = B d).
  { intros d Hd. destruct (B d) eqn:HB.
    - apply Set_has_true, list_elem_of_In, filter_In. by rewrite <-list_elem_of_In.
    - apply Set_has_false. rewrite list_elem_of_In, filter_In. intros [_ ?]. congruence. }
  revert Hhas. generalize (List.filter B directives) as R. intros R Hhas.
  induction directives as [|d directives IH]; [done|].
  cbn. assert (Set_has R d = B d) as Hd by (apply Hhas; by left).
  destruct (A d); cbn; rewrite ?Hd; rewrite IH by (intros ??; apply Hhas; by right);
    done.
Qed.

(** X9. For candidates listed once each, both attributions are plain
    filters of the candidate list, so they list the directives in the order
    of the candidates: a candidate is kept when it matches the tag name
    followed by the serialized attributes and does not match the second
    string. *)
Theorem attributions_in_candidate_order (name : string) (hostNode : HostNode)
    (directives : list DirectiveSymbol) :
  NoDup directives →
  getDirectiveMatchesForElementTag hostNode directives
  = List.filter
      (fun d => matchesText (tagName hostNode ++ serialize (allAttributes hostNode)) d
                && negb (matchesText (serialize (allAttributes hostNode)) d))
      directives ∧
  getDirectiveMatchesForAttribute name hostNode directives
  = List.filter
      (fun d => matchesText (tagName hostNode ++ serialize (allAttributes hostNode)) d
                && negb (matchesText (serialize (attributesWithout name hostNode)) d))
      directives.
Proof.
  intros Hnd.
  unfold getDirectiveMatchesForElementTag, getDirectiveMatchesForAttribute.
  rewrite filter_excluding_name, !join_serialize, getAttributes_all.
  rewrite !getDirectiveMatchesForSelector_filter by done.
  rewrite !difference_keeps_order
    by (apply NoDup_ListNoDup, List.NoDup_filter; by apply NoDup_ListNoDup).
  by rewrite !filter_without_filter.
Qed.

(** X10. Asking for an attribute name that no attribute of the host has
    gives the attribution of the tag: nothing is left out of the second
    string, which is then the serialization of all the attributes. *)
Theorem getDirectiveMatchesForAttribute_absent_name (name : string) (hostNode : HostNode)
    (directives : list DirectiveSymbol) :
  Forall (fun a => attr_name a ≠ name) (getAttributes hostNode) →
  getDirectiveMatchesForAttribute name hostNode directives
  = getDirectiveMatchesForElementTag hostNode directives.
Proof.
  intros Habsent.
  unfold getDirectiveMatchesForAttribute, getDirectiveMatchesForElementTag.
  assert (List.filter (fun a => negb (String.eqb (attr_name a) name)) (getAttributes hostNode)
          = getAttributes hostNode) as ->; [|done].
  induction Habsent as [|a l Ha _ IH]; [done|].
  cbn. apply String.eqb_neq in Ha. rewrite Ha. cbn. by rewrite IH.
Qed.

(** X11. The attributions look at a candidate's selector only: of two
    candidates with the same selector, either both are attributed to the tag
    or neither is, and likewise for an attribute. *)
Theorem attribution_by_selector_only (name : string) (hostNode : HostNode)
    (directives : list DirectiveSymbol) (d1 d2 : DirectiveSymbol) :
  d1 ∈ directives → d2 ∈ directives → selector d1 = selector d2 →
  (d1 ∈ getDirectiveMatchesForElementTag hostNode directives ↔
   d2 ∈ getDirectiveMatchesForElementTag hostNode directives) ∧
  (d1 ∈ getDirectiveMatchesForAttribute name hostNode directives ↔
   d2 ∈ getDirectiveMatchesForAttribute name hostNode directives).
Proof.
  intros H1 H2 Hsel.
  assert (Hm : ∀ text, matching directives text d1 ↔ matching directives text d2).
  { intros text. unfold matching, matches. rewrite Hsel. tauto. }
  rewrite !elem_of_getDirectiveMatchesForElementTag,
    !elem_of_getDirectiveMatchesForAttribute, !Hm. done.
Qed.

End EngineOrder.

(** On [<div myAttr [foo]=x>] with the three candidates. *)
Lemma attributions_in_candidate_order_witness :
  let candidates :=
    [Examples.divMyAttrDirective; Examples.myAttrDirective; Examples.fooDirective] in
  getDirectiveMatchesForElementTag (api := SelectorDouble.api) Examples.divHost candidates
  = List.filter
      (fun d => matchesText (api := SelectorDouble.api)
                  (tagName Examples.divHost ++ serialize (allAttributes Examples.divHost)) d
                && negb (matchesText (api := SelectorDouble.api)
                           (serialize (allAttributes Examples.divHost)) d))
      candidates ∧
  getDirectiveMatchesForAttribute (api := SelectorDouble.api) "foo" Examples.divHost candidates
  = List.filter
      (fun d => matchesText (api := SelectorDouble.api)
                  (tagName Examples.divHost ++ serialize (allAttributes Examples.divHost)) d
                && negb (matchesText (api := SelectorDouble.api)
                           (serialize (attributesWithout "foo" Examples.divHost)) d))
      candidates.
Proof.
  apply (attributions_in_candidate_order (api := SelectorDouble.api)).
  exact (bool_decide_unpack
           (NoDup [Examples.divMyAttrDirective; Examples.myAttrDirective;
                   Examples.fooDirective]) I).
Defined.

(** [<span a>] has no attribute [b]. *)
Lemma getDirectiveMatchesForAttribute_absent_name_witness :
  getDirectiveMatchesForAttribute (api := SelectorDouble.api) "b" Examples.spanHost
    [Examples.notSpanDirective; MoreExamples.spanADirective]
  = getDirectiveMatchesForElementTag (api := SelectorDouble.api) Examples.spanHost
      [Examples.notSpanDirective; MoreExamples.spanADirective].
Proof.
  apply (getDirectiveMatchesForAttribute_absent_name (api := SelectorDouble.api)).
  cbn. constructor; [discriminate|constructor].
Defined.

(** Two candidates with the selector [span[a]] on [<span a>]. *)
Lemma attribution_by_selector_only_witness :
  let candidates := [MoreExamples.spanADirective; MoreExamples.spanATwinDirective] in
  (MoreExamples.spanADirective
     ∈ getDirectiveMatchesForElementTag (api := SelectorDouble.api) Examples.spanHost candidates ↔
   MoreExamples.spanATwinDirective
     ∈ getDirectiveMatchesForElementTag (api := SelectorDouble.api) Examples.spanHost candidates) ∧
  (MoreExamples.spanADirective
     ∈ getDirectiveMatchesForAttribute (api := SelectorDouble.api) "a" Examples.spanHost candidates ↔
   MoreExamples.spanATwinDirective
     ∈ getDirectiveMatchesForAttribute (api := SelectorDouble.api) "a" Examples.spanHost candidates).
Proof.
  apply (attribution_by_selector_only (api := SelectorDouble.api)).
  - by left.
  - right. by left.
  - reflexivity.
Defined.

End AttributionMore.

(** *** The display-part filter *)
Module DisplayTextMore.
Import DisplayText DisplayTextFacts DisplayPairs.

Section PairFacts.
Variables ALIAS_NAME SYMBOL_PUNC : string.

Abbreviation alias := (isImportAlias ALIAS_NAME).
Abbreviation dot := (isDotPunctuation SYMBOL_PUNC).

(** No part is both: the text of a dot holds no [i]. *)
Lemma alias_not_dot (part : SymbolDisplayPart) : alias part = true → dot part = false.
Proof.
  unfold isImportAlias, isDotPunctuation.
  intros [_ Htest]%andb_true_iff.
  destruct (String.eqb_spec (text part) ".") as [Heq|_]; [|apply andb_false_r].
  rewrite Heq in Htest. discriminate Htest.
Qed.

Lemma localFilter_cons (previous : option SymbolDisplayPart) (part : SymbolDisplayPart)
    (rest : list SymbolDisplayPart) :
  localFilter ALIAS_NAME SYMBOL_PUNC previous (part :: rest)
  = if suppressed ALIAS_NAME SYMBOL_PUNC previous part (head rest)
    then localFilter ALIAS_NAME SYMBOL_PUNC (Some part) rest
    else part :: localFilter ALIAS_NAME SYMBOL_PUNC (Some part) rest.
Proof. reflexivity. Qed.

Lemma withoutAliasPairs_cons (part next : SymbolDisplayPart)
    (rest : list SymbolDisplayPart) :
  withoutAliasPairs ALIAS_NAME SYMBOL_PUNC (part :: next :: rest)
  = if alias part && dot next
    then withoutAliasPairs ALIAS_NAME SYMBOL_PUNC rest
    else part :: withoutAliasPairs ALIAS_NAME SYMBOL_PUNC (next :: rest).
Proof. reflexivity. Qed.

Lemma localFilter_pairs (n : nat) :
  ∀ (parts : list SymbolDisplayPart) (previous : option SymbolDisplayPart),
    (List.length parts ≤ n)%nat →
    from_option alias false previous && from_option dot false (head parts) = false →
    localFilter ALIAS_NAME SYMBOL_PUNC previous parts
    = withoutAliasPairs ALIAS_NAME SYMBOL_PUNC parts.
Proof.
  induction n as [|n IH]; intros [|part [|next rest]] previous Hlen Hprev;
    cbn [List.length] in Hlen; try lia; try done.
  - rewrite localFilter_cons. unfold suppressed. cbn [from_option head] in *.
    rewrite andb_false_r, andb_comm, Hprev. done.
  - rewrite localFilter_cons, withoutAliasPairs_cons. unfold suppressed.
    cbn [from_option head] in *.
    rewrite (andb_comm (dot part)), Hprev, orb_false_r.
    destruct (alias part && dot next) eqn:Hpair.
    + apply andb_true_iff in Hpair as [Hpart Hnext].
      rewrite localFilter_cons. unfold suppressed. cbn [from_option].
      rewrite Hpart, Hnext, orb_true_r.
      apply IH; [lia|]. cbn [from_option].
      destruct (alias next) eqn:Hn; [|done].
      apply alias_not_dot in Hn. congruence.
    + f_equal. apply (IH (next :: rest)); [cbn; lia|]. exact Hpair.
Qed.

Lemma withoutAliasPairs_length (n : nat) :
  ∀ parts : list SymbolDisplayPart,
    (List.length parts ≤ n)%nat →
    ∃ pairs : nat,
      List.length parts
      = (List.length (withoutAliasPairs ALIAS_NAME SYMBOL_PUNC parts) + 2 * pairs)%nat.
Proof.
  induction n as [|n IH]; intros [|part [|next rest]] Hlen;
    cbn [List.length] in Hlen; try lia; try (by exists 0%nat).
  rewrite withoutAliasPairs_cons. destruct (alias part && dot next).
  - destruct (IH rest) as [pairs Hp]; [lia|]. exists (S pairs). cbn [List.length]. lia.
  - destruct (IH (next :: rest)) as [pairs Hp]; [cbn; lia|]. exists pairs.
    cbn [List.length] in *. lia.
Qed.

Lemma localFilter_unchanged (parts : list SymbolDisplayPart)
    (previous : option SymbolDisplayPart) :
  (from_option alias false previous = false ∧ Forall (fun p => alias p = false) parts)
  ∨ Forall (fun p => dot p = false) parts →
  localFilter ALIAS_NAME SYMBOL_PUNC previous parts = parts.
Proof.
  revert previous. induction parts as [|part rest IH]; intros previous H; [done|].
  cbn [localFilter].
  assert (suppressed ALIAS_NAME SYMBOL_PUNC previous part (head rest) = false) as ->.
  { unfold suppressed. destruct H as [[Hprev Hall]|Hall].
    - apply Forall_cons_1 in Hall as [-> _]. by rewrite Hprev, andb_false_r.
    - apply Forall_cons_1 in Hall as [-> Hrest]. rewrite orb_false_r.
      destruct rest as [|next rest]; cbn; [apply andb_false_r|].
      apply Forall_cons_1 in Hrest as [-> _]. apply andb_false_r. }
  f_equal. apply IH. destruct H as [[_ Hall]|Hall].
  - apply Forall_cons_1 in Hall as [Hpart Hrest]. left. by split.
  - apply Forall_cons_1 in Hall as [_ Hrest]. by right.
Qed.

End PairFacts.

(** X12. [filterAliasImports] removes exactly the adjacent pairs made of
    an import alias and the dot right after it, read from the left, and
    nothing else; so the parts it removes come two by two. *)
Theorem filterAliasImports_removes_pairs (ALIAS_NAME SYMBOL_PUNC : string)
    (displayParts : list SymbolDisplayPart) :
  filterAliasImports ALIAS_NAME SYMBOL_PUNC displayParts
  = withoutAliasPairs ALIAS_NAME SYMBOL_PUNC displayParts ∧
  ∃ pairs : nat,
    List.length displayParts
    = (List.length (filterAliasImports ALIAS_NAME SYMBOL_PUNC displayParts) + 2 * pairs)%nat.
Proof.
  assert (Heq : filterAliasImports ALIAS_NAME SYMBOL_PUNC displayParts
                = withoutAliasPairs ALIAS_NAME SYMBOL_PUNC displayParts).
  { rewrite filterAliasImports_localFilter.
    by apply (localFilter_pairs _ _ (List.length displayParts)). }
  split; [done|]. rewrite Heq.
  by apply (withoutAliasPairs_length _ _ (List.length displayParts)).
Qed.

(** X13. Display parts that hold no import alias, or no dot punctuation,
    are returned unchanged. *)
Theorem filterAliasImports_unchanged (ALIAS_NAME SYMBOL_PUNC : string)
    (displayParts : list SymbolDisplayPart) :
  Forall (fun p => isImportAlias ALIAS_NAME p = false) displayParts
  ∨ Forall (fun p => isDotPunctuation SYMBOL_PUNC p = false) displayParts →
  filterAliasImports ALIAS_NAME SYMBOL_PUNC displayParts = displayParts.
Proof.
  intros H. rewrite filterAliasImports_localFilter. apply localFilter_unchanged.
  destruct H as [H|H]; [left; by split|by right].
Qed.

(** The parts of [min0.x]: an alias name that is not an import alias, a
    dot and a property name. *)
Lemma filterAliasImports_unchanged_witness :
  let parts :=
    [{| kind := Examples.ALIAS_NAME; text := "min0" |};
     {| kind := Examples.SYMBOL_PUNC; text := "." |};
     {| kind := "propertyName"; text := "x" |}] in
  filterAliasImports Examples.ALIAS_NAME Examples.SYMBOL_PUNC parts = parts.
Proof.
  apply filterAliasImports_unchanged. left.
  repeat constructor.
Defined.

End DisplayTextMore.

(** *** Sequences *)
Module SequencesMore.
Import Sequences.

Lemma flatMap_from {T R} (f : T → list R) (items : list T) (results : list R) :
  foldl (fun results x => (results ++ f x)%list) results items
  = (results ++ concat (map f items))%list.
Proof.
  revert results. induction items as [|x items IH]; intros results; cbn.
  - by rewrite app_nil_r.
  - by rewrite IH, <-app_assoc.
Qed.

(** X14. [flatMap] gives the lists [f x] one after the other, in the order
    of the items: it is the concatenation of the mapped items, so its
    elements are those of some [f x], and the result for two sequences put
    end to end is the two results put end to end. *)
Theorem flatMap_concat {T R} (items more : list T) (f : T → list R) :
  flatMap items f = concat (map f items) ∧
  flatMap (items ++ more) f = (flatMap items f ++ flatMap more f)%list ∧
  (∀ y, y ∈ flatMap items f ↔ ∃ x, x ∈ items ∧ y ∈ f x) ∧
  (Forall (fun x => f x = []) items → flatMap items f = []).
Proof.
  assert (Hc : ∀ l, flatMap l f = concat (map f l)).
  { intros l. unfold flatMap. by rewrite flatMap_from. }
  split; [apply Hc|]. split.
  { rewrite !Hc, map_app. apply concat_app. }
  split.
  - intros y. rewrite Hc, list_elem_of_In, in_concat. split.
    + intros (l & (x & <- & Hx)%in_map_iff & Hy).
      exists x. by rewrite !list_elem_of_In.
    + intros (x & Hx & Hy). exists (f x). split.
      * apply in_map_iff. exists x. split; [done|by apply list_elem_of_In].
      * by apply list_elem_of_In.
  - rewrite Hc. induction 1 as [|x l Hx _ IH]; [done|]. cbn. by rewrite Hx, IH.
Qed.

End SequencesMore.
